(** * laravel-mix-s3-uploader: a shallow embedding of the webpack plugin

    The plugin of [src/laravel-mix-s3-uploader.js] collects the files of a
    build, and uploads them one by one to an S3 bucket.  This development
    embeds the plugin's helpers, its constructor and its two build hooks,
    and settles the properties the specification states about them.

    The source file holds two variants of the plugin.  The definitions at
    top level follow the second, most recent one (the list-of-prefixes
    filter, [PutObjectCommand]); module [Legacy] holds what is needed of
    the first one. *)

From Stdlib Require Import String Ascii List Bool Arith ZArith Lia DecimalString.
Import ListNotations.
Local Open Scope string_scope.

Set Implicit Arguments.

(** ** JavaScript strings *)

Definition slash : ascii := "/"%char.
Definition backslash : ascii := ascii_of_nat 92.
Definition question_mark : ascii := "?"%char.

(** [s.startsWith(p)] *)
Fixpoint startsWith (s p : string) {struct p} : bool :=
  match p with
  | EmptyString => true
  | String b p' =>
      match s with
      | EmptyString => false
      | String a s' => Ascii.eqb a b && startsWith s' p'
      end
  end.

(** [s.slice(n)], for [n >= 0]: what is left after the first [n]
    characters; the empty string when [s] is shorter. *)
Fixpoint slice (n : nat) (s : string) : string :=
  match n, s with
  | O, _ => s
  | S _, EmptyString => EmptyString
  | S n', String _ r => slice n' r
  end.

(** [s.replace(/\\/g, '/')]: every backslash becomes a forward slash. *)
Fixpoint backslashesToSlashes (s : string) : string :=
  match s with
  | EmptyString => EmptyString
  | String c r =>
      String (if Ascii.eqb c backslash then slash else c)
             (backslashesToSlashes r)
  end.

(** [s.split('?')[0]]: the part of [s] before its first question mark. *)
Fixpoint beforeQuestionMark (s : string) : string :=
  match s with
  | EmptyString => EmptyString
  | String c r =>
      if Ascii.eqb c question_mark then EmptyString
      else String c (beforeQuestionMark r)
  end.

(** A JavaScript string is truthy when it is not empty; an absent
    ([undefined]) property is falsy. *)
Definition nonEmpty (s : string) : bool :=
  match s with EmptyString => false | String _ _ => true end.

Definition truthy (v : option string) : bool :=
  match v with Some s => nonEmpty s | None => false end.

(** A list (a JavaScript array) is truthy even when it is empty. *)
Definition truthyList {A : Type} (v : option (list A)) : bool :=
  match v with Some _ => true | None => false end.

(** String conversion of a possibly undefined string, as [+] does it. *)
Definition toStr (v : option string) : string :=
  match v with Some s => s | None => "undefined" end.

Definition natToStr (n : nat) : string :=
  NilZero.string_of_uint (Nat.to_uint n).

(** ** [removeSlashes]

    [str.replace(/^\/|\/$/g, '')].  The global replace scans the string
    once from the left: the first alternative matches a slash at index 0,
    the second a slash that is the last character of what follows. *)

Definition stripLeadingSlash (s : string) : string :=
  match s with
  | String c r => if Ascii.eqb c slash then r else s
  | EmptyString => EmptyString
  end.

Fixpoint stripTrailingSlash (s : string) : string :=
  match s with
  | EmptyString => EmptyString
  | String c EmptyString =>
      if Ascii.eqb c slash then EmptyString else s
  | String c r => String c (stripTrailingSlash r)
  end.

Definition removeSlashes (str : string) : string :=
  stripTrailingSlash (stripLeadingSlash str).

(** The last character of a string is a slash. *)
Fixpoint endsWithSlash (s : string) : bool :=
  match s with
  | EmptyString => false
  | String c EmptyString => Ascii.eqb c slash
  | String _ r => endsWithSlash r
  end.

Definition startsWithSlash (s : string) : bool :=
  match s with
  | String c _ => Ascii.eqb c slash
  | EmptyString => false
  end.

(** ** The path filter: [isExcluded] and [shouldUpload] *)

(** The body of the [for ... of] loop of [isExcluded].  Both the entry and
    the file name are normalised at every turn, and the file name is
    assigned back, so the next turn starts from the normalised name. *)
Fixpoint isExcludedLoop (excludes : list string) (filename : string) : bool :=
  match excludes with
  | [] => false
  | exclude :: rest =>
      let exclude := backslashesToSlashes exclude in
      let filename := backslashesToSlashes filename in
      if startsWith filename exclude then true
      else isExcludedLoop rest filename
  end.

(** [this.excludes && this.excludes.length > 0], then the loop. *)
Definition isExcludedBy (excludes : option (list string)) (filename : string)
  : bool :=
  match excludes with
  | Some (e :: es) => isExcludedLoop (e :: es) filename
  | Some [] => false
  | None => false
  end.

(** The filter as the specification words it: some entry of the list is,
    after normalisation of both sides, a prefix of the path. *)
Definition excludedSpec (E : list string) (p : string) : Prop :=
  exists e, In e E /\
    startsWith (backslashesToSlashes p) (backslashesToSlashes e) = true.

(** ** Values, errors and the remote client *)

(** What the client and the file system throw: [Error] objects, of which
    the plugin reads [name] and [message]. *)
Record JsError := { name : string; message : string }.

(** What a promise is rejected with, and what the hook callback receives:
    an [Error], or a message string. *)
Inductive JsValue :=
| VString (s : string)
| VError (e : JsError).

Definition truthyValue (v : JsValue) : bool :=
  match v with
  | VString s => nonEmpty s
  | VError _ => true
  end.

(** Reading a property of [undefined]. *)
Definition typeError (what : string) : JsError :=
  {| name := "TypeError";
     message := "Cannot read properties of undefined (reading '"
                ++ what ++ "')" |}.

(** Calling what is not a function. *)
Definition notAFunction (what : string) : JsError :=
  {| name := "TypeError"; message := what ++ " is not a function" |}.

(** A computation either returns or throws. *)
Inductive Outcome (A : Type) :=
| Ok (a : A)
| Throw (e : JsError).
Arguments Ok {A} a.
Arguments Throw {A} e.

Module S3Config.
Record Credentials := {
  credAccessKeyId : option string;
  credSecretAccessKey : option string;
  credSessionToken : option string }.
Record t := {
  accessKeyId : option string;
  secretAccessKey : option string;
  region : option string;
  endpoint : option string;
  credentials : option Credentials }.
End S3Config.

Module PutObject.
Record Params := {
  Bucket : option string;
  Key : string;
  Body : string;
  ACL : option string;
  CacheControl : option string;
  ContentType : option string }.
(** [result.$metadata] and its [httpStatusCode]; either may be missing. *)
Record Metadata := { httpStatusCode : option Z }.
Record Output := { metadata : option Metadata }.
(** [await s3.send(command)]: a result (possibly [undefined]), or an
    error thrown by the client. *)
Inductive Response :=
| Returned (result : option Output)
| Threw (err : JsError).
End PutObject.

Module DeleteObjects.
Record ObjectIdentifier := { Key : string }.
Record Params := {
  Bucket : option string;
  Objects : list ObjectIdentifier;
  Quiet : bool }.
(** How the delete, once issued, ends. *)
Inductive Settlement :=
| Fulfils
| Rejects (err : JsError).
(** [s3.deleteObjects(params)]: the call throws, or it returns an
    object.  The object is a request with a [promise] method, whose
    promise settles as the delete ends, or it is itself a promise, which
    has no [promise] method: that is what the [S3] of
    [@aws-sdk/client-s3], which the file requires, returns. *)
Inductive Response :=
| Threw (err : JsError)
| Request (settles : Settlement)
| BarePromise (settles : Settlement).
End DeleteObjects.

(** The storage client, an external collaborator.  A client value stands
    for the client object in its current state. *)
Class RemoteClient (Client : Type) := {
  newS3 : S3Config.t -> Client;
  send : Client -> PutObject.Params -> Client * PutObject.Response;
  deleteObjects :
    Client -> DeleteObjects.Params -> Client * DeleteObjects.Response }.

(** The host: Node's [fs] and [path] modules and [mime-types]. *)
Class Host := {
  readdirSync : string -> Outcome (list string);
  statSyncIsDirectory : string -> Outcome bool;
  readFileSync : string -> Outcome string;
  pathJoin : string -> string -> string;
  mimeLookup : string -> option string }.

(** ** Observable events *)

Inductive Event :=
| ConsoleLog (msg : string)
| ConsoleError (args : list JsValue)
| BarStart (total : nat) (startValue : nat) (filename : string)
| BarUpdate (c : nat) (filename : string)
| BarStop
| NewS3 (config : S3Config.t)
| Send (params : PutObject.Params) (response : PutObject.Response)
| DeleteCall (params : DeleteObjects.Params)
             (response : DeleteObjects.Response)
| Callback (err : option JsValue).

(** ** The configuration and the plugin instance *)

Module Options.
Record t := {
  key : option string;
  secret : option string;
  bucket : option string;
  region : option string;
  endpoint : option string;
  sessionToken : option string;
  source : option string;
  prefix : option string;
  acl : option string;
  cache : option string;
  includes : option (list string);
  excludes : option (list string);
  remove : option (list string);
  quiet : bool }.
End Options.

(** [this]: the fields the constructor sets.  A field the constructor
    leaves unset is [None] (or [false] for the flag). *)
Record Uploader := {
  bucket : option string;
  filesToUpload : list string;
  source : option string;
  prefix : option string;
  includes : option (list string);
  excludes : option (list string);
  sessionToken : option string;
  quiet : bool;
  acl : option string;
  cache : option string }.

Definition isExcluded (this : Uploader) (filename : string) : bool :=
  isExcludedBy (excludes this) filename.

Definition shouldUpload (this : Uploader) (filename : string) : bool :=
  negb (isExcluded this filename).

(** ** Effects

    The module-level variable [s3] is the only state the operations share;
    everything else they do to the outside is recorded as events.  A
    computation takes the current [s3], and gives its outcome, the new
    [s3] and the events it produced, in order. *)

Record Run (Client A : Type) := {
  outcome : Outcome A;
  s3After : option Client;
  events : list Event }.

Definition M (Client A : Type) : Type := option Client -> Run Client A.

Definition ret {Client A : Type} (a : A) : M Client A :=
  fun s3 => {| outcome := Ok a; s3After := s3; events := [] |}.

Definition throw {Client A : Type} (e : JsError) : M Client A :=
  fun s3 => {| outcome := Throw e; s3After := s3; events := [] |}.

Definition bind {Client A B : Type} (m : M Client A) (k : A -> M Client B)
  : M Client B :=
  fun s3 =>
    let r := m s3 in
    match outcome r with
    | Ok a =>
        let r' := k a (s3After r) in
        {| outcome := outcome r'; s3After := s3After r';
           events := events r ++ events r' |}
    | Throw e =>
        {| outcome := Throw e; s3After := s3After r; events := events r |}
    end.

(** [try { m } catch (err) { handler }] *)
Definition tryCatch {Client A : Type} (m : M Client A)
  (handler : JsError -> M Client A) : M Client A :=
  fun s3 =>
    let r := m s3 in
    match outcome r with
    | Ok a => r
    | Throw e =>
        let r' := handler e (s3After r) in
        {| outcome := outcome r'; s3After := s3After r';
           events := events r ++ events r' |}
    end.

(** Calling an [async] function without awaiting it: whatever becomes of
    its promise, the caller goes on. *)
Definition notAwaited {Client A : Type} (m : M Client A) : M Client unit :=
  fun s3 =>
    let r := m s3 in
    {| outcome := Ok tt; s3After := s3After r; events := events r |}.

Definition emitEvent {Client : Type} (e : Event) : M Client unit :=
  fun s3 => {| outcome := Ok tt; s3After := s3; events := [e] |}.

Definition getS3 {Client : Type} : M Client (option Client) :=
  fun s3 => {| outcome := Ok s3; s3After := s3; events := [] |}.

Definition setS3 {Client : Type} (c : Client) : M Client unit :=
  fun _ => {| outcome := Ok tt; s3After := Some c; events := [] |}.

Definition liftOutcome {Client A : Type} (o : Outcome A) : M Client A :=
  fun s3 => {| outcome := o; s3After := s3; events := [] |}.

Declare Scope js_scope.
Delimit Scope js_scope with js.
Notation "x <- m ;; k" := (bind m (fun x => k))
  (at level 61, m at next level, right associativity) : js_scope.
Notation "m ;;; k" := (bind m (fun _ => k))
  (at level 61, right associativity) : js_scope.

(** How a promise settles. *)
Inductive Settled :=
| Resolved
| Rejected (reason : JsValue).

(** How the loop of the [afterEmit] hook ends: by running out of files, or
    by its [return]. *)
Inductive LoopExit :=
| LoopDone
| LoopReturned.

Section Plugin.

Context {Client : Type} {client : RemoteClient Client} {host : Host}.

Local Open Scope js_scope.

(** [log]: [console.log], unless quiet. *)
Definition log (this : Uploader) (msg : string) : M Client unit :=
  if negb (quiet this) then emitEvent (ConsoleLog msg) else ret tt.

(** *** [removePaths] *)

Definition deleteParams (this : Uploader) (paths : list string)
  : DeleteObjects.Params :=
  {| DeleteObjects.Bucket := bucket this;
     DeleteObjects.Objects :=
       fold_left
         (fun objects path =>
            (objects ++ [ {| DeleteObjects.Key := path |} ])%list)
         paths [];
     DeleteObjects.Quiet := false |}.

(** [await s3.deleteObjects(params).promise()].  On a request the
    promise of [promise()] is awaited.  On a bare promise the call of
    [promise] throws, and the promise of the delete is left without a
    handler, however it settles. *)
Definition awaitDeleteObjects (params : DeleteObjects.Params) : M Client unit :=
  s3 <- getS3 ;;
  match s3 with
  | None => throw (typeError "deleteObjects")
  | Some c =>
      let (c', response) := deleteObjects c params in
      setS3 c' ;;;
      emitEvent (DeleteCall params response) ;;;
      match response with
      | DeleteObjects.Threw err => throw err
      | DeleteObjects.Request DeleteObjects.Fulfils => ret tt
      | DeleteObjects.Request (DeleteObjects.Rejects err) => throw err
      | DeleteObjects.BarePromise _ =>
          throw (notAFunction "s3.deleteObjects(...).promise")
      end
  end.

(** [console.error('Error deleting objects:', err)] *)
Definition deleteErrorLogged (err : JsError) : Event :=
  ConsoleError [VString "Error deleting objects:"; VError err].

Definition removePaths (this : Uploader) (paths : list string) : M Client unit :=
  let params := deleteParams this paths in
  tryCatch (awaitDeleteObjects params)
    (fun err => emitEvent (deleteErrorLogged err)).

(** What [removePaths] writes on the console after a call that was
    answered with [response]. *)
Definition deleteReport (response : DeleteObjects.Response) : list Event :=
  match response with
  | DeleteObjects.Threw err => [deleteErrorLogged err]
  | DeleteObjects.Request DeleteObjects.Fulfils => []
  | DeleteObjects.Request (DeleteObjects.Rejects err) =>
      [deleteErrorLogged err]
  | DeleteObjects.BarePromise _ =>
      [deleteErrorLogged (notAFunction "s3.deleteObjects(...).promise")]
  end.

(** *** The constructor *)

(** [if (!options.region) { options.region = 'us-east-1'; }] *)
Definition defaultRegion (options : Options.t) : Options.t :=
  if negb (truthy (Options.region options)) then
    {| Options.key := Options.key options;
       Options.secret := Options.secret options;
       Options.bucket := Options.bucket options;
       Options.region := Some "us-east-1";
       Options.endpoint := Options.endpoint options;
       Options.sessionToken := Options.sessionToken options;
       Options.source := Options.source options;
       Options.prefix := Options.prefix options;
       Options.acl := Options.acl options;
       Options.cache := Options.cache options;
       Options.includes := Options.includes options;
       Options.excludes := Options.excludes options;
       Options.remove := Options.remove options;
       Options.quiet := Options.quiet options |}
  else options.

(** [if (options.x) { this.x = f(options.x) }] for a string option. *)
Definition whenTruthy (f : string -> string) (v : option string)
  : option string :=
  match v with
  | Some s => if nonEmpty s then Some (f s) else None
  | None => None
  end.

Definition clientConfig (options : Options.t) : S3Config.t :=
  {| S3Config.accessKeyId := Options.key options;
     S3Config.secretAccessKey := Options.secret options;
     S3Config.region := whenTruthy (fun s => s) (Options.region options);
     S3Config.endpoint := whenTruthy (fun s => s) (Options.endpoint options);
     S3Config.credentials :=
       if truthy (Options.sessionToken options) then
         Some {| S3Config.credAccessKeyId := Options.key options;
                 S3Config.credSecretAccessKey := Options.secret options;
                 S3Config.credSessionToken := Options.sessionToken options |}
       else None |}.

(** [options.key && options.secret && (options.region || options.endpoint)] *)
Definition clientWanted (options : Options.t) : bool :=
  truthy (Options.key options) && truthy (Options.secret options)
  && (truthy (Options.region options) || truthy (Options.endpoint options)).

(** The instance as it is when [removePaths] is called: [acl] and [cache]
    are assigned after it. *)
Definition instanceBeforeRemove (options : Options.t) : Uploader :=
  {| bucket := Options.bucket options;
     filesToUpload := [];
     source := whenTruthy removeSlashes (Options.source options);
     prefix := whenTruthy removeSlashes (Options.prefix options);
     includes := Options.includes options;
     excludes := Options.excludes options;
     sessionToken := whenTruthy (fun s => s) (Options.sessionToken options);
     quiet := Options.quiet options;
     acl := None;
     cache := None |}.

Definition withAclAndCache (options : Options.t) (this : Uploader)
  : Uploader :=
  {| bucket := bucket this;
     filesToUpload := filesToUpload this;
     source := source this;
     prefix := prefix this;
     includes := includes this;
     excludes := excludes this;
     sessionToken := sessionToken this;
     quiet := quiet this;
     acl := whenTruthy (fun s => s) (Options.acl options);
     cache := whenTruthy (fun s => s) (Options.cache options) |}.

(** [new LaravelMixS3Uploader(options)].  The result carries the options
    object as the constructor leaves it, since it assigns to
    [options.region]. *)
Definition LaravelMixS3Uploader (options : Options.t)
  : M Client (Uploader * Options.t) :=
  let options := defaultRegion options in
  let this := instanceBeforeRemove options in
  (if clientWanted options then
     let config := clientConfig options in
     emitEvent (NewS3 config) ;;;
     setS3 (newS3 config)
   else ret tt) ;;;
  match Options.remove options with
  | Some paths => notAwaited (removePaths this paths)
  | None => ret tt
  end ;;;
  ret (withAclAndCache options this, options).

(** The client the constructor leaves in [s3], and the events of its
    making. *)
Definition clientAfter (options : Options.t) (s3 : option Client)
  : option Client :=
  if clientWanted (defaultRegion options)
  then Some (newS3 (clientConfig (defaultRegion options)))
  else s3.

Definition clientEvents (options : Options.t) : list Event :=
  if clientWanted (defaultRegion options)
  then [NewS3 (clientConfig (defaultRegion options))]
  else [].

(** *** [upload] *)

Definition putParams (this : Uploader) (filename content : string)
  : PutObject.Params :=
  {| PutObject.Bucket := bucket this;
     PutObject.Key := filename;
     PutObject.Body := content;
     PutObject.ACL := whenTruthy (fun s => s) (acl this);
     PutObject.CacheControl := whenTruthy (fun s => s) (cache this);
     PutObject.ContentType :=
       whenTruthy (fun s => s) (mimeLookup filename) |}.

Definition unknownError (this : Uploader) (filename : string) : string :=
  "Error uploading " ++ filename ++ " to " ++ toStr (bucket this)
  ++ ": Unknown error".

Definition thrownErrorMessage (this : Uploader) (filename : string)
  (err : JsError) : string :=
  "Error uploading " ++ filename ++ " to " ++ toStr (bucket this)
  ++ ": " ++ name err ++ " - " ++ message err.

(** [result && result.$metadata.httpStatusCode === 200]; reading
    [httpStatusCode] of a missing [$metadata] throws. *)
Definition statusIs200 (result : option PutObject.Output) : Outcome bool :=
  match result with
  | None => Ok false
  | Some output =>
      match PutObject.metadata output with
      | None => Throw (typeError "httpStatusCode")
      | Some md =>
          match PutObject.httpStatusCode md with
          | Some status => Ok (Z.eqb status 200)
          | None => Ok false
          end
      end
  end.

(** The body of the [try] block of [upload]. *)
Definition sendAndCheck (this : Uploader) (params : PutObject.Params)
  : M Client Settled :=
  s3 <- getS3 ;;
  match s3 with
  | None => throw (typeError "send")
  | Some c =>
      let (c', response) := send c params in
      setS3 c' ;;;
      emitEvent (Send params response) ;;;
      match response with
      | PutObject.Threw err => throw err
      | PutObject.Returned result =>
          ok <- liftOutcome (statusIs200 result) ;;
          if ok then ret Resolved
          else ret (Rejected (VString (unknownError this (PutObject.Key params))))
      end
  end.

(** [upload(filename, content)]: the promise it returns always settles. *)
Definition upload (this : Uploader) (filename content : string)
  : M Client Settled :=
  let params := putParams this filename content in
  tryCatch (sendAndCheck this params)
    (fun err =>
       emitEvent (ConsoleError [VString (thrownErrorMessage this filename err)]) ;;;
       ret (Rejected (VError err))).

(** *** The [afterEmit] hook *)

(** [asset.split('?')[0]], then [removeSlashes]. *)
Definition deriveFilename (asset : string) : string :=
  removeSlashes (beforeQuestionMark asset).

(** The remote key of a file name. *)
Definition remotePath (this : Uploader) (filename : string) : string :=
  if truthy (prefix this) then toStr (prefix this) ++ "/" ++ filename
  else if truthy (source this) then toStr (source this) ++ "/" ++ filename
  else filename.

(** The truthiness of the loop's [error] variable, [false] at first. *)
Definition errorSet (error : option JsValue) : bool :=
  match error with
  | Some e => truthyValue e
  | None => false
  end.

(** The [for ... of] loop over [this.filesToUpload], with its variables
    [c] and [error]. *)
Fixpoint uploadLoop (this : Uploader) (outputPath : string)
  (assets : list string) (c : nat) (error : option JsValue)
  : M Client LoopExit :=
  match assets with
  | [] => ret LoopDone
  | asset :: rest =>
      let filename := deriveFilename asset in
      let localPath := outputPath ++ "/" ++ filename in
      let key := remotePath this filename in
      content <- liftOutcome (readFileSync localPath) ;;
      settled <- upload this key content ;;
      error <- match settled with
               | Rejected e => emitEvent (Callback (Some e)) ;;; ret (Some e)
               | Resolved => ret error
               end ;;
      if errorSet error then ret LoopReturned
      else
        emitEvent (BarUpdate c filename) ;;;
        uploadLoop this outputPath rest (S c) error
  end.

Definition carriageReturnLineFeed : string :=
  String (ascii_of_nat 13) (String (ascii_of_nat 10) EmptyString).

Definition uploadingMessage (this : Uploader) : string :=
  carriageReturnLineFeed ++ carriageReturnLineFeed ++ "Uploading "
  ++ natToStr (List.length (filesToUpload this)) ++ " assets to '"
  ++ toStr (bucket this) ++ "'...".

(** The callback tapped on [compiler.hooks.afterEmit].  When it throws,
    the hook's promise is rejected and [cb] has not been called. *)
Definition afterEmit (this : Uploader) (outputPath : string) : M Client unit :=
  log this (uploadingMessage this) ;;;
  emitEvent (BarStart (List.length (filesToUpload this)) 0 "Starting...") ;;;
  exit <- uploadLoop this outputPath (filesToUpload this) 1 None ;;
  match exit with
  | LoopReturned => ret tt
  | LoopDone =>
      emitEvent BarStop ;;;
      log this "Finished!" ;;;
      emitEvent (Callback None)
  end.

(** *** [getIncludes] *)

(** [items.forEach(f)], where [f] pushes on the shared array [files]; a
    throw ends it. [None] stands for a walk that has not finished within
    the recursion budget. *)
Fixpoint forEachItem {A : Type}
  (f : A -> list string -> option (Outcome (list string)))
  (items : list A) (files : list string) : option (Outcome (list string)) :=
  match items with
  | [] => Some (Ok files)
  | item :: rest =>
      match f item files with
      | Some (Ok files') => forEachItem f rest files'
      | other => other
      end
  end.

(** What the walker does with a file: the [else] branch of [traverse]. *)
Definition includeFile (this : Uploader) (itemPath : string)
  (files : list string) : Outcome (list string) :=
  let stripped :=
    if startsWith itemPath (toStr (source this)) then
      match source this with
      | Some src => Ok (slice (String.length src + 1) itemPath)
      | None => Throw (typeError "length")
      end
    else Ok itemPath in
  match stripped with
  | Throw e => Throw e
  | Ok itemPath =>
      if shouldUpload this itemPath
      then Ok (files ++ [backslashesToSlashes itemPath])%list
      else Ok files
  end.

(** The inner function [traverse].  The file system decides how deep the
    recursion goes, so it is bounded by [fuel]. *)
Fixpoint traverse (fuel : nat) (this : Uploader) (currentPath : string)
  (files : list string) : option (Outcome (list string)) :=
  match fuel with
  | O => None
  | S fuel' =>
      match readdirSync currentPath with
      | Throw e => Some (Throw e)
      | Ok items =>
          forEachItem
            (fun item files =>
               let itemPath := removeSlashes (pathJoin currentPath item) in
               match statSyncIsDirectory itemPath with
               | Throw e => Some (Throw e)
               | Ok isDirectory =>
                   if shouldUpload this itemPath then
                     if isDirectory then traverse fuel' this itemPath files
                     else Some (includeFile this itemPath files)
                   else Some (Ok files)
               end)
            items files
      end
  end.

Definition getIncludes (fuel : nat) (this : Uploader) (dirs : list string)
  : option (Outcome (list string)) :=
  forEachItem (fun dir files => traverse fuel this dir files) dirs [].

(** *** The [emit] hook *)

(** A webpack compilation, as far as the hooks read it: its properties
    that hold objects, each given by the object's own enumerable keys in
    enumeration order.  Webpack gives a compilation the property [assets],
    keyed by the names of the emitted assets. *)
Record Compilation := { properties : list (string * list string) }.

Definition webpackCompilation (assetNames : list string) : Compilation :=
  {| properties := [("assets", assetNames)] |}.

Fixpoint getProperty (props : list (string * list string)) (name : string)
  : option (list string) :=
  match props with
  | [] => None
  | (n, v) :: rest => if String.eqb n name then Some v else getProperty rest name
  end.

(** [for (const k in o)]: nothing to go through when [o] is undefined. *)
Definition forInKeys (o : option (list string)) : list string :=
  match o with
  | Some keys => keys
  | None => []
  end.

(** The [for ... in] loop of the hook, pushing on [this.filesToUpload]. *)
Definition collectEmitted (this : Uploader) (keys : list string)
  (filesToUpload : list string) : list string :=
  fold_left
    (fun files filename =>
       if shouldUpload this filename then (files ++ [filename])%list
       else files)
    keys filesToUpload.

Definition withFilesToUpload (this : Uploader) (files : list string)
  : Uploader :=
  {| bucket := bucket this;
     filesToUpload := files;
     source := source this;
     prefix := prefix this;
     includes := includes this;
     excludes := excludes this;
     sessionToken := sessionToken this;
     quiet := quiet this;
     acl := acl this;
     cache := cache this |}.

(** The callback tapped on [compiler.hooks.emit]: the instance it leaves
    and the events it produced ([callback()] when nothing was thrown). *)
Definition emit (fuel : nat) (this : Uploader) (compilation : Compilation)
  : option (Outcome Uploader * list Event) :=
  let collected :=
    collectEmitted this
      (forInKeys (getProperty (properties compilation) "filesToUpload"))
      (filesToUpload this) in
  match includes this with
  | Some dirs =>
      match getIncludes fuel this dirs with
      | None => None
      | Some (Throw e) => Some (Throw e, [])
      | Some (Ok found) =>
          Some (Ok (withFilesToUpload this (collected ++ found)%list),
                [Callback None])
      end
  | None => Some (Ok (withFilesToUpload this collected), [Callback None])
  end.

End Plugin.

(** ** The first variant of the plugin

    Of the older variant in the source file, the part of its [emit] hook
    that collects the emitted assets.  Its filter is one regular
    expression; [RegExp.test] is taken as a predicate. *)
Module Legacy.

Record Uploader := {
  assets : list string;
  exclude : option (string -> bool) }.

(** [!this.exclude || !this.exclude.test(filename)] *)
Definition shouldUpload (this : Uploader) (filename : string) : bool :=
  match exclude this with
  | None => true
  | Some test => negb (test filename)
  end.

(** [for (const filename in compilation.assets)], pushing on
    [this.assets]. *)
Definition collectEmitted (this : Uploader) (compilation : Compilation)
  : list string :=
  fold_left
    (fun files filename =>
       if shouldUpload this filename then (files ++ [filename])%list
       else files)
    (forInKeys (getProperty (properties compilation) "assets"))
    (assets this).

(** The fields of the first variant's instance that its walker and its
    [emit] hook read besides the two above. *)
Record Instance := {
  core : Uploader;
  source : option string;
  includes : option (list string) }.

(** What the first variant's walker does with a file: the source is cut
    off, without the separator after it, and nothing is filtered. *)
Definition includeFile (sourceToRemove : option string) (itemPath : string)
  (files : list string) : Outcome (list string) :=
  let stripped :=
    if startsWith itemPath (toStr sourceToRemove) then
      match sourceToRemove with
      | Some src => Ok (slice (String.length src) itemPath)
      | None => Throw (typeError "length")
      end
    else Ok itemPath in
  match stripped with
  | Throw e => Throw e
  | Ok itemPath => Ok (files ++ [backslashesToSlashes itemPath])%list
  end.

(** The inner function [traverse] of the first variant. *)
Fixpoint traverse {host : Host} (fuel : nat) (sourceToRemove : option string)
  (currentPath : string) (files : list string)
  : option (Outcome (list string)) :=
  match fuel with
  | O => None
  | S fuel' =>
      match readdirSync currentPath with
      | Throw e => Some (Throw e)
      | Ok items =>
          forEachItem
            (fun item files =>
               let itemPath := pathJoin currentPath item in
               match statSyncIsDirectory itemPath with
               | Throw e => Some (Throw e)
               | Ok isDirectory =>
                   if isDirectory
                   then traverse fuel' sourceToRemove itemPath files
                   else Some (includeFile sourceToRemove itemPath files)
               end)
            items files
      end
  end.

Definition getIncludes {host : Host} (fuel : nat) (this : Instance)
  (dirs : list string) : option (Outcome (list string)) :=
  forEachItem (fun dir files => traverse fuel (source this) dir files) dirs [].

(** The callback the first variant taps on [compiler.hooks.emit]: the
    list [this.assets] it leaves, and the events it produced. *)
Definition emit {host : Host} (fuel : nat) (this : Instance)
  (compilation : Compilation)
  : option (Outcome (list string) * list Event) :=
  let collected := collectEmitted (core this) compilation in
  match includes this with
  | Some dirs =>
      match getIncludes fuel this dirs with
      | None => None
      | Some (Throw e) => Some (Throw e, [])
      | Some (Ok found) => Some (Ok (collected ++ found)%list, [Callback None])
      end
  | None => Some (Ok collected, [Callback None])
  end.

End Legacy.

(** ** Reading a trace *)

(** The PUT requests of a trace, each with the client's response. *)
Fixpoint sends (tr : list Event)
  : list (PutObject.Params * PutObject.Response) :=
  match tr with
  | [] => []
  | Send params response :: rest => (params, response) :: sends rest
  | _ :: rest => sends rest
  end.

(** The batch deletes of a trace. *)
Fixpoint deleteCalls (tr : list Event)
  : list (DeleteObjects.Params * DeleteObjects.Response) :=
  match tr with
  | [] => []
  | DeleteCall params response :: rest => (params, response) :: deleteCalls rest
  | _ :: rest => deleteCalls rest
  end.

(** The calls of the hook callback of a trace, with their argument. *)
Fixpoint callbacks (tr : list Event) : list (option JsValue) :=
  match tr with
  | [] => []
  | Callback err :: rest => err :: callbacks rest
  | _ :: rest => callbacks rest
  end.

(** What a trace writes through [console]. *)
Definition isConsole (e : Event) : bool :=
  match e with
  | ConsoleLog _ | ConsoleError _ => true
  | _ => false
  end.

Definition consoleOutput (tr : list Event) : list Event :=
  filter isConsole tr.

Definition isConsoleLog (e : Event) : bool :=
  match e with
  | ConsoleLog _ => true
  | _ => false
  end.

(** A response of the client with the HTTP status [code]. *)
Definition statusResponse (code : Z) : PutObject.Response :=
  PutObject.Returned
    (Some {| PutObject.metadata :=
               Some {| PutObject.httpStatusCode := Some code |} |}).

(** The client's response carries HTTP status 200. *)
Definition carriesStatus200 (response : PutObject.Response) : bool :=
  match response with
  | PutObject.Returned
      (Some {| PutObject.metadata :=
                 Some {| PutObject.httpStatusCode := Some status |} |}) =>
      Z.eqb status 200
  | _ => false
  end.

Definition putKeys (tr : list Event) : list string :=
  map (fun s => PutObject.Key (fst s)) (sends tr).

Definition putResults (tr : list Event) : list bool :=
  map (fun s => carriesStatus200 (snd s)) (sends tr).

(** The remote key under which the loop puts an entry of the upload set. *)
Definition keyOf (this : Uploader) (asset : string) : string :=
  remotePath this (deriveFilename asset).

(** The events of a call of [log]. *)
Definition logged (this : Uploader) (msg : string) : list Event :=
  if negb (quiet this) then [ConsoleLog msg] else [].

(** [s.endsWith(p)] *)
Fixpoint endsWith (s p : string) : bool :=
  String.eqb s p ||
  match s with
  | EmptyString => false
  | String _ r => endsWith r p
  end.

(** The instance the constructor builds from the options. *)
Definition constructed (options : Options.t) : Uploader :=
  withAclAndCache (defaultRegion options)
    (instanceBeforeRemove (defaultRegion options)).

(** The exclude list of an instance, empty when none is configured. *)
Definition configuredExcludes (this : Uploader) : list string :=
  match excludes this with
  | Some E => E
  | None => []
  end.

(** The updates of the progress bar of a trace. *)
Fixpoint barUpdates (tr : list Event) : list (nat * string) :=
  match tr with
  | [] => []
  | BarUpdate c filename :: rest => (c, filename) :: barUpdates rest
  | _ :: rest => barUpdates rest
  end.

(** The messages a trace writes through [console.log]. *)
Fixpoint consoleLogs (tr : list Event) : list string :=
  match tr with
  | [] => []
  | ConsoleLog msg :: rest => msg :: consoleLogs rest
  | _ :: rest => consoleLogs rest
  end.

(** The character [c] occurs in [s]. *)
Fixpoint occurs (c : ascii) (s : string) : bool :=
  match s with
  | EmptyString => false
  | String d r => Ascii.eqb d c || occurs c r
  end.

(** A file name the [afterEmit] hook leaves as it is: no question mark,
    no slash at either end. *)
Definition plainName (s : string) : bool :=
  negb (occurs question_mark s) && negb (startsWithSlash s)
  && negb (endsWithSlash s).

(** Adding [added] to the array of a walk that has come to an end. *)
Definition extendedBy (files : list string)
  (r : option (Outcome (list string))) : option (Outcome (list string)) :=
  match r with
  | Some (Ok added) => Some (Ok (files ++ added)%list)
  | other => other
  end.

(** What the walker may have added to its array: paths that pass the
    filter and hold no backslash. *)
Definition collectable (this : Uploader) (path : string) : Prop :=
  shouldUpload this path = true /\ occurs backslash path = false.

(** What [upload] rejects with on a response, with what it writes on the
    console before; [None] for a response that makes it resolve. *)
Definition rejection (this : Uploader) (filename : string)
  (response : PutObject.Response) : option (JsValue * list Event) :=
  let thrown err :=
    Some (VError err,
          [ConsoleError [VString (thrownErrorMessage this filename err)]]) in
  match response with
  | PutObject.Threw err => thrown err
  | PutObject.Returned result =>
      match statusIs200 result with
      | Ok true => None
      | Ok false => Some (VString (unknownError this filename), [])
      | Throw err => thrown err
      end
  end.

(** The local file the loop reads for an entry of the upload set. *)
Definition localPathOf (outputPath asset : string) : string :=
  outputPath ++ "/" ++ deriveFilename asset.

(** What [traverse] does with one entry of the listing of
    [currentPath]; [fuel] is the budget left for the directories below. *)
Definition traverseItem {host : Host} (fuel : nat) (this : Uploader)
  (currentPath item : string) (files : list string)
  : option (Outcome (list string)) :=
  let itemPath := removeSlashes (pathJoin currentPath item) in
  match statSyncIsDirectory itemPath with
  | Throw e => Some (Throw e)
  | Ok isDirectory =>
      if shouldUpload this itemPath then
        if isDirectory then traverse fuel this itemPath files
        else Some (includeFile this itemPath files)
      else Some (Ok files)
  end.

(** The directories a walk from the roots [dirs] goes into: the roots,
    and of what is listed in a directory it goes into, every directory
    that passes the filter. *)
Inductive entered {host : Host} (this : Uploader) (dirs : list string)
  : string -> Prop :=
| entered_root (dir : string) :
    In dir dirs -> entered this dirs dir
| entered_below (dir : string) (items : list string) (item : string) :
    entered this dirs dir ->
    readdirSync dir = Ok items ->
    In item items ->
    statSyncIsDirectory (removeSlashes (pathJoin dir item)) = Ok true ->
    shouldUpload this (removeSlashes (pathJoin dir item)) = true ->
    entered this dirs (removeSlashes (pathJoin dir item)).

(** ** Fixtures: a scripted client and a file system given by tables *)

Module Fixtures.

(** A client that counts the calls made on it; the [n]-th PUT (from 0) is
    answered by [puts n], every batch delete by [deletes]. *)
Definition scriptedClient (puts : nat -> PutObject.Response)
  (deletes : DeleteObjects.Response) : RemoteClient nat :=
  {| newS3 := fun _ => 0;
     send := fun c _ => (S c, puts c);
     deleteObjects := fun c _ => (S c, deletes) |}.

Fixpoint lookup {A : Type} (table : list (string * A)) (k : string)
  : option A :=
  match table with
  | [] => None
  | (k', v) :: rest => if String.eqb k' k then Some v else lookup rest k
  end.

Definition noEntry (path : string) : JsError :=
  {| name := "Error";
     message := "ENOENT: no such file or directory, '" ++ path ++ "'" |}.

(** A file system with the directories [dirs] (each with its listing) and
    the files [files] (each with its contents).  [pathJoin] is
    concatenation with a separator, which is what [path.join] gives for
    the plain relative segments used here. *)
Definition tableHost (dirs : list (string * list string))
  (files : list (string * string)) : Host :=
  {| readdirSync := fun p =>
       match lookup dirs p with
       | Some items => Ok items
       | None => Throw (noEntry p)
       end;
     statSyncIsDirectory := fun p =>
       match lookup dirs p, lookup files p with
       | Some _, _ => Ok true
       | None, Some _ => Ok false
       | None, None => Throw (noEntry p)
       end;
     readFileSync := fun p =>
       match lookup files p with
       | Some content => Ok content
       | None => Throw (noEntry p)
       end;
     pathJoin := fun a b => a ++ "/" ++ b;
     mimeLookup := fun _ => None |}.

(** Options with only a bucket. *)
Definition bareOptions : Options.t :=
  {| Options.key := None; Options.secret := None;
     Options.bucket := Some "bucket"; Options.region := None;
     Options.endpoint := None; Options.sessionToken := None;
     Options.source := None; Options.prefix := None;
     Options.acl := None; Options.cache := None;
     Options.includes := None; Options.excludes := None;
     Options.remove := None; Options.quiet := false |}.

(** An instance with only a bucket and the given files to upload. *)
Definition bareUploader (files : list string) : Uploader :=
  withFilesToUpload (constructed bareOptions) files.

(** Three built files under the output directory [dist]. *)
Definition distHost : Host :=
  tableHost [] [("dist/a.js", "A"); ("dist/b.js", "B"); ("dist/c.js", "C")].

(** A client that answers the second PUT with status 500. *)
Definition secondPutFails : RemoteClient nat :=
  scriptedClient
    (fun n => if Nat.eqb n 1 then statusResponse 500 else statusResponse 200)
    (DeleteObjects.BarePromise DeleteObjects.Fulfils).

(** A client that answers every PUT with status 200. *)
Definition allPutsSucceed : RemoteClient nat :=
  scriptedClient (fun _ => statusResponse 200)
    (DeleteObjects.BarePromise DeleteObjects.Fulfils).

(** A client whose every call throws. *)
Definition networkDown : JsError :=
  {| name := "TimeoutError"; message := "socket hang up" |}.

Definition everyCallThrows : RemoteClient nat :=
  scriptedClient (fun _ => PutObject.Threw networkDown)
    (DeleteObjects.Threw networkDown).

(** A client as [@aws-sdk/client-s3] makes it, on which the delete is
    refused: [deleteObjects] returns a promise, which is rejected. *)
Definition accessDenied : JsError :=
  {| name := "AccessDenied"; message := "Access Denied" |}.

Definition deleteRefused : RemoteClient nat :=
  scriptedClient (fun _ => statusResponse 200)
    (DeleteObjects.BarePromise (DeleteObjects.Rejects accessDenied)).

(** Options with a bucket and a list of remote keys to delete, but no
    credentials. *)
Definition removeWithoutCredentials : Options.t :=
  {| Options.key := None; Options.secret := None;
     Options.bucket := Some "bucket"; Options.region := None;
     Options.endpoint := None; Options.sessionToken := None;
     Options.source := None; Options.prefix := None;
     Options.acl := None; Options.cache := None;
     Options.includes := None; Options.excludes := None;
     Options.remove := Some ["old/a.js"]; Options.quiet := false |}.

(** Credentials, a list of remote keys to delete, and the quiet flag. *)
Definition removeWithCredentials : Options.t :=
  {| Options.key := Some "AKIA"; Options.secret := Some "secret";
     Options.bucket := Some "bucket"; Options.region := Some "eu-west-1";
     Options.endpoint := None; Options.sessionToken := None;
     Options.source := None; Options.prefix := None;
     Options.acl := None; Options.cache := None;
     Options.includes := None; Options.excludes := None;
     Options.remove := Some ["old/a.js"]; Options.quiet := true |}.

(** Credentials and an endpoint, but no region. *)
Definition endpointOnly : Options.t :=
  {| Options.key := Some "AKIA"; Options.secret := Some "secret";
     Options.bucket := Some "bucket"; Options.region := None;
     Options.endpoint := Some "http://localhost:9000";
     Options.sessionToken := None;
     Options.source := None; Options.prefix := None;
     Options.acl := None; Options.cache := None;
     Options.includes := None; Options.excludes := None;
     Options.remove := None; Options.quiet := false |}.

(** A prefix and a source given as in the specification's example, and
    the same with a prefix that is only a slash. *)
Definition withPrefixAndSource (p s : option string) : Options.t :=
  {| Options.key := None; Options.secret := None;
     Options.bucket := Some "bucket"; Options.region := None;
     Options.endpoint := None; Options.sessionToken := None;
     Options.source := s; Options.prefix := p;
     Options.acl := None; Options.cache := None;
     Options.includes := None; Options.excludes := None;
     Options.remove := None; Options.quiet := false |}.

(** The tree of the specification's example: [a/x.txt] and [a/b/y.txt]. *)
Definition exampleTree : Host :=
  tableHost [("a", ["x.txt"; "b"]); ("a/b", ["y.txt"])]
            [("a/x.txt", "X"); ("a/b/y.txt", "Y")].

(** A directory [ab], whose name starts with the name of the source
    directory [a], holding [x.txt]. *)
Definition siblingTree : Host :=
  tableHost [("ab", ["x.txt"])] [("ab/x.txt", "X")].

(** A directory named [undefined], holding [x.txt]. *)
Definition undefinedTree : Host :=
  tableHost [("undefined", ["x.txt"])] [("undefined/x.txt", "X")].

(** A tree with a directory to leave out. *)
Definition treeWithExcluded : Host :=
  tableHost [("a", ["skip"; "x.txt"]); ("a/skip", ["z.txt"])]
            [("a/x.txt", "X"); ("a/skip/z.txt", "Z")].

(** An instance with credentials' worth of settings: bucket, ACL and
    cache control, and the given files to upload. *)
Definition publicUploader (files : list string) : Uploader :=
  withFilesToUpload
    (constructed
       {| Options.key := Some "AKIA"; Options.secret := Some "secret";
          Options.bucket := Some "bucket"; Options.region := None;
          Options.endpoint := None; Options.sessionToken := None;
          Options.source := None; Options.prefix := Some "/cdn/";
          Options.acl := Some "public-read";
          Options.cache := Some "max-age=602430";
          Options.includes := None; Options.excludes := None;
          Options.remove := None; Options.quiet := false |})
    files.

(** A source directory [public] with an image two levels down. *)
Definition publicTree : Host :=
  tableHost [("public", ["img"]); ("public/img", ["logo.png"])]
            [("public/img/logo.png", "PNG")].

(** The same tree, but the listing of the directory to leave out cannot
    be read. *)
Definition treeWithUnreadableExcluded : Host :=
  {| readdirSync := fun p =>
       if String.eqb p "a/skip" then Throw (noEntry p)
       else @readdirSync treeWithExcluded p;
     statSyncIsDirectory := @statSyncIsDirectory treeWithExcluded;
     readFileSync := @readFileSync treeWithExcluded;
     pathJoin := @pathJoin treeWithExcluded;
     mimeLookup := @mimeLookup treeWithExcluded |}.

Definition withSourceAndLists (s : option string)
  (inc exc : option (list string)) : Options.t :=
  {| Options.key := None; Options.secret := None;
     Options.bucket := Some "bucket"; Options.region := None;
     Options.endpoint := None; Options.sessionToken := None;
     Options.source := s; Options.prefix := None;
     Options.acl := None; Options.cache := None;
     Options.includes := inc; Options.excludes := exc;
     Options.remove := None; Options.quiet := false |}.

End Fixtures.

(** * Properties *)

(** ** Strings *)

Lemma backslashesToSlashes_idempotent (s : string) :
  backslashesToSlashes (backslashesToSlashes s) = backslashesToSlashes s.
Proof.
  induction s as [|c r IH]; simpl; [reflexivity|].
  rewrite IH. f_equal.
  destruct (Ascii.eqb c backslash) eqn:E; [reflexivity|].
  now rewrite E.
Qed.

Lemma stripTrailingSlash_cons (c d : ascii) (r : string) :
  stripTrailingSlash (String c (String d r))
  = String c (stripTrailingSlash (String d r)).
Proof. reflexivity. Qed.

Lemma endsWithSlash_cons (c d : ascii) (r : string) :
  endsWithSlash (String c (String d r)) = endsWithSlash (String d r).
Proof. reflexivity. Qed.

(** Stripping the trailing slash takes away nothing or one slash. *)
Lemma stripTrailingSlash_spec (s : string) :
  (endsWithSlash s = false /\ stripTrailingSlash s = s) \/
  (endsWithSlash s = true /\ s = stripTrailingSlash s ++ "/").
Proof.
  induction s as [|c r IH]; [left; split; reflexivity|].
  destruct r as [|d r'].
  - simpl. destruct (Ascii.eqb c slash) eqn:E.
    + right. split; [reflexivity|].
      apply Ascii.eqb_eq in E. now subst c.
    + left. split; reflexivity.
  - rewrite stripTrailingSlash_cons, endsWithSlash_cons.
    destruct IH as [[H1 H2]|[H1 H2]].
    + left. split; [exact H1|now rewrite H2].
    + right. split; [exact H1|].
      change (String c (String d r')
              = String c (stripTrailingSlash (String d r') ++ "/")).
      f_equal. exact H2.
Qed.

Lemma stripLeadingSlash_spec (s : string) :
  (startsWithSlash s = false /\ stripLeadingSlash s = s) \/
  (startsWithSlash s = true /\ s = "/" ++ stripLeadingSlash s).
Proof.
  destruct s as [|c r]; [left; split; reflexivity|].
  simpl. destruct (Ascii.eqb c slash) eqn:E.
  - right. split; [reflexivity|]. apply Ascii.eqb_eq in E. now subst c.
  - left. split; reflexivity.
Qed.

Lemma removeSlashes_fixed (s : string) :
  startsWithSlash s = false -> endsWithSlash s = false ->
  removeSlashes s = s.
Proof.
  intros Hs He. unfold removeSlashes.
  destruct (stripLeadingSlash_spec s) as [[_ H]|[H _]]; [|congruence].
  rewrite H.
  destruct (stripTrailingSlash_spec s) as [[_ H']|[H' _]]; congruence.
Qed.

Lemma endsWith_append (u p : string) : endsWith (u ++ p) p = true.
Proof.
  induction u as [|c u IH].
  - destruct p; simpl; rewrite ?Ascii.eqb_refl, ?String.eqb_refl; reflexivity.
  - change (endsWith (String c (u ++ p)) p = true).
    simpl. rewrite IH. apply orb_true_r.
Qed.

Lemma endsWithSlash_split (s : string) :
  endsWithSlash s = true -> exists u, s = u ++ "/".
Proof.
  intros H. destruct (stripTrailingSlash_spec s) as [[H' _]|[_ H']].
  - congruence.
  - now exists (stripTrailingSlash s).
Qed.

Lemma append_assoc (a b c : string) : (a ++ b) ++ c = a ++ (b ++ c).
Proof. induction a as [|x a IH]; simpl; [reflexivity|now rewrite IH]. Qed.

Lemma stripTrailingSlash_ends (t : string) :
  endsWithSlash (stripTrailingSlash t) = true -> endsWith t "//" = true.
Proof.
  intros H.
  destruct (stripTrailingSlash_spec t) as [[H1 H2]|[_ H2]].
  - rewrite H2 in H. congruence.
  - destruct (endsWithSlash_split _ H) as [u Hu].
    rewrite H2, Hu, append_assoc. apply endsWith_append.
Qed.

Lemma stripLeadingSlash_ends (s p : string) :
  endsWith (stripLeadingSlash s) p = true -> endsWith s p = true.
Proof.
  destruct s as [|c r]; [trivial|].
  simpl stripLeadingSlash. destruct (Ascii.eqb c slash); [|trivial].
  intros H. simpl. rewrite H. apply orb_true_r.
Qed.

Lemma stripTrailingSlash_starts (t : string) :
  startsWithSlash (stripTrailingSlash t) = true -> startsWithSlash t = true.
Proof.
  destruct t as [|c [|d r]]; [trivial| |trivial].
  simpl. destruct (Ascii.eqb c slash) eqn:E; simpl; [discriminate|].
  now rewrite E.
Qed.

Lemma stripLeadingSlash_starts (s : string) :
  startsWithSlash (stripLeadingSlash s) = true -> startsWith s "//" = true.
Proof.
  destruct s as [|c r]; [discriminate|].
  simpl stripLeadingSlash. destruct (Ascii.eqb c slash) eqn:E.
  - apply Ascii.eqb_eq in E. subst c.
    destruct r as [|d r]; [discriminate|].
    simpl. unfold slash. intros H. now rewrite H.
  - simpl. congruence.
Qed.

(** ** C8: [removeSlashes] *)

(** C8, as the claim states it, fails: on a string with two leading
    slashes a second application strips one more. *)
Lemma removeSlashes_not_idempotent :
  ~ (forall s : string, removeSlashes (removeSlashes s) = removeSlashes s).
Proof.
  intros H. specialize (H "//a"). discriminate H.
Qed.

(** C8 (amended): [removeSlashes] takes away at most one leading and at
    most one trailing slash, and nothing else; applying it twice gives
    the same as once for every string that neither starts nor ends with
    two slashes. *)
Theorem removeSlashes_strips_one_each_side (s : string) :
  (exists pre suf,
      s = pre ++ removeSlashes s ++ suf /\
      (pre = EmptyString \/ pre = "/") /\
      (suf = EmptyString \/ suf = "/")) /\
  (startsWith s "//" = false -> endsWith s "//" = false ->
   removeSlashes (removeSlashes s) = removeSlashes s).
Proof.
  split.
  - unfold removeSlashes.
    destruct (stripLeadingSlash_spec s) as [[_ Hl]|[_ Hl]];
      destruct (stripTrailingSlash_spec (stripLeadingSlash s))
        as [[_ Ht]|[_ Ht]].
    + exists EmptyString, EmptyString. rewrite Ht, Hl.
      split; [|now split; left].
      simpl. clear. induction s; simpl; congruence.
    + exists EmptyString, "/". split; [|split; [now left|now right]].
      simpl. rewrite <- Ht. now rewrite Hl.
    + exists "/", EmptyString. split; [|split; [now right|now left]].
      rewrite Ht. rewrite Hl at 1. f_equal.
      clear. induction (stripLeadingSlash s); simpl; congruence.
    + exists "/", "/". split; [|split; now right].
      rewrite <- Ht. exact Hl.
  - intros Hs He. apply removeSlashes_fixed.
    + destruct (startsWithSlash (removeSlashes s)) eqn:E; [|reflexivity].
      apply stripTrailingSlash_starts, stripLeadingSlash_starts in E.
      congruence.
    + destruct (endsWithSlash (removeSlashes s)) eqn:E; [|reflexivity].
      apply stripTrailingSlash_ends, stripLeadingSlash_ends in E.
      congruence.
Qed.

Lemma removeSlashes_strips_one_each_side_witness :
  startsWith "/public/" "//" = false /\ endsWith "/public/" "//" = false /\
  removeSlashes (removeSlashes "/public/") = removeSlashes "/public/".
Proof.
  split; [reflexivity|split; [reflexivity|]].
  apply (proj2 (removeSlashes_strips_one_each_side "/public/"));
    reflexivity.
Defined.

(** ** C3: the path filter *)

Lemma isExcludedLoop_spec (E : list string) :
  forall p, isExcludedLoop E p = true <-> excludedSpec E p.
Proof.
  induction E as [|e E IH]; intros p; simpl.
  - split; [discriminate|]. intros (e & [] & _).
  - destruct (startsWith (backslashesToSlashes p) (backslashesToSlashes e))
      eqn:Hp.
    + split; [|reflexivity]. intros _. exists e. split; [now left|exact Hp].
    + rewrite IH. unfold excludedSpec.
      split.
      * intros (e' & Hin & H). exists e'. split; [now right|].
        now rewrite backslashesToSlashes_idempotent in H.
      * intros (e' & [<-|Hin] & H); [congruence|].
        exists e'. split; [exact Hin|].
        now rewrite backslashesToSlashes_idempotent.
Qed.

Lemma isExcludedBy_spec (excludes : option (list string)) (p : string) :
  isExcludedBy excludes p = true
  <-> excludedSpec (match excludes with Some E => E | None => [] end) p.
Proof.
  destruct excludes as [[|e E]|].
  - split; [discriminate|]. intros (e & [] & _).
  - apply isExcludedLoop_spec.
  - split; [discriminate|]. intros (e & [] & _).
Qed.

(** C3: [shouldUpload] holds of a path exactly when no entry of the
    exclude list is, after backslashes are turned into forward slashes on
    both sides, a prefix of it; with an empty or absent list it holds of
    every path. *)
Theorem shouldUpload_iff_no_excluding_prefix (this : Uploader) (p : string) :
  (shouldUpload this p = true
   <-> ~ excludedSpec (configuredExcludes this) p) /\
  (configuredExcludes this = [] -> shouldUpload this p = true).
Proof.
  assert (H : shouldUpload this p = true
              <-> ~ excludedSpec (configuredExcludes this) p).
  { unfold shouldUpload, isExcluded, configuredExcludes.
    rewrite negb_true_iff, <- isExcludedBy_spec.
    destruct (isExcludedBy (excludes this) p); split; congruence. }
  split; [exact H|].
  intros Hempty. apply H. rewrite Hempty. intros (e & [] & _).
Qed.

Lemma shouldUpload_iff_no_excluding_prefix_witness :
  configuredExcludes (Fixtures.bareUploader []) = [] /\
  shouldUpload (Fixtures.bareUploader []) "js/app.js" = true.
Proof.
  split; [reflexivity|].
  apply (proj2 (shouldUpload_iff_no_excluding_prefix
                  (Fixtures.bareUploader []) "js/app.js")).
  reflexivity.
Defined.

Example shouldUpload_prefix_example :
  let this :=
    constructed
      {| Options.key := None; Options.secret := None;
         Options.bucket := Some "bucket"; Options.region := None;
         Options.endpoint := None; Options.sessionToken := None;
         Options.source := None; Options.prefix := None;
         Options.acl := None; Options.cache := None;
         Options.includes := None;
         Options.excludes :=
           Some [String "p" (String backslash "excluded")];
         Options.remove := None; Options.quiet := false |} in
  shouldUpload this "p/excluded/a.js" = false /\
  shouldUpload this "p/kept/a.js" = true.
Proof. split; reflexivity. Qed.

(** ** The operations on the remote client *)

(** Closes the conjuncts that describe a run once it has been computed. *)
Ltac settle_run :=
  repeat match goal with
    | |- _ /\ _ => split
    | |- _ = _ => reflexivity
    | |- forall _, _ => intro
    | H : true = false |- _ => discriminate H
    | H : false = true |- _ => discriminate H
    | H : In _ [] |- _ => destruct H
    | H : In _ (_ :: _) |- _ => destruct H as [<-|H]
    | H : PutObject.Threw _ = PutObject.Threw _ |- _ =>
        inversion H; subst; clear H
    | H : PutObject.Returned _ = PutObject.Threw _ |- _ => discriminate H
    | |- exists _, _ => eexists
    end.

Section ClientProperties.

Context {Client : Type} {client : RemoteClient Client} {host : Host}.

Lemma sends_app (t1 t2 : list Event) :
  sends (t1 ++ t2) = (sends t1 ++ sends t2)%list.
Proof.
  induction t1 as [|e t1 IH]; [reflexivity|].
  destruct e; simpl; rewrite IH; reflexivity.
Qed.

Lemma callbacks_app (t1 t2 : list Event) :
  callbacks (t1 ++ t2) = (callbacks t1 ++ callbacks t2)%list.
Proof.
  induction t1 as [|e t1 IH]; [reflexivity|].
  destruct e; simpl; rewrite IH; reflexivity.
Qed.

Lemma deleteCalls_app (t1 t2 : list Event) :
  deleteCalls (t1 ++ t2) = (deleteCalls t1 ++ deleteCalls t2)%list.
Proof.
  induction t1 as [|e t1 IH]; [reflexivity|].
  destruct e; simpl; rewrite IH; reflexivity.
Qed.

(** Without a client, [upload] is rejected with the [TypeError] of
    [s3.send], and no request is made. *)
Lemma upload_without_client (this : Uploader) (filename content : string) :
  upload this filename content None
  = {| outcome := Ok (Rejected (VError (typeError "send")));
       s3After := None;
       events :=
         [ConsoleError
            [VString (thrownErrorMessage this filename (typeError "send"))]] |}.
Proof. reflexivity. Qed.

(** With a client, [upload] makes one request and settles by the
    response. *)
Lemma upload_with_client (this : Uploader) (filename content : string)
  (c : Client) :
  let params := putParams this filename content in
  let response := snd (send c params) in
  let run := upload this filename content (Some c) in
  s3After run = Some (fst (send c params)) /\
  sends (events run) = [(params, response)] /\
  callbacks (events run) = [] /\
  (exists errors, events run = Send params response :: errors
                  /\ forall e, In e errors -> isConsoleLog e = false) /\
  (carriesStatus200 response = true -> outcome run = Ok Resolved) /\
  (carriesStatus200 response = false ->
   exists reason, outcome run = Ok (Rejected reason)
                  /\ truthyValue reason = true) /\
  (forall err, response = PutObject.Threw err ->
               outcome run = Ok (Rejected (VError err))).
Proof.
  cbv zeta. unfold upload, tryCatch, sendAndCheck, bind, getS3. simpl.
  destruct (send c (putParams this filename content)) as [c' response].
  simpl.
  destruct response as [[[[[[status|]]|]]|]|err]; simpl;
    try destruct (Z.eqb status 200); simpl; settle_run.
Qed.

(** ** C2: when an upload succeeds *)

(** C2: a PUT that [upload] issues makes the upload succeed exactly when
    the client's response carries HTTP status 200; with any other status,
    with no status, and when the client throws, the upload is rejected. *)
Theorem upload_resolves_iff_status_200 (this : Uploader)
  (filename content : string) (c : Client) :
  let params := putParams this filename content in
  let response := snd (send c params) in
  let run := upload this filename content (Some c) in
  sends (events run) = [(params, response)] /\
  (outcome run = Ok Resolved <-> carriesStatus200 response = true) /\
  (forall status, response = statusResponse status ->
                  (outcome run = Ok Resolved <-> status = 200%Z)) /\
  (carriesStatus200 response = false ->
   exists reason, outcome run = Ok (Rejected reason)) /\
  (forall err, response = PutObject.Threw err ->
               outcome run = Ok (Rejected (VError err))).
Proof.
  cbv zeta.
  destruct (upload_with_client this filename content c)
    as (_ & Hsends & _ & _ & Hok & Hfail & Hthrew).
  assert (Hiff : outcome (upload this filename content (Some c)) = Ok Resolved
                 <-> carriesStatus200
                       (snd (send c (putParams this filename content)))
                     = true).
  { split; [|exact Hok]. intros Ho.
    destruct (carriesStatus200
                (snd (send c (putParams this filename content))));
      [reflexivity|].
    destruct (Hfail eq_refl) as (reason & Hr & _). congruence. }
  split; [exact Hsends|]. split; [exact Hiff|]. split; [|split].
  - intros status Hstatus. rewrite Hiff, Hstatus. simpl. apply Z.eqb_eq.
  - intros Hno. destruct (Hfail Hno) as (reason & Hr & _). now exists reason.
  - exact Hthrew.
Qed.

End ClientProperties.

(** ** The upload loop *)

Section LoopProperties.

Context {Client : Type} {client : RemoteClient Client} {host : Host}.

Variable this : Uploader.
Variable outputPath : string.

(** One turn of the loop, by the way the upload settles. *)
Lemma uploadLoop_cons (asset : string) (rest : list string) (c : nat)
  (error : option JsValue) (s3 : option Client) :
  uploadLoop this outputPath (asset :: rest) c error s3 =
  match readFileSync (outputPath ++ "/" ++ deriveFilename asset) with
  | Throw e => {| outcome := Throw e; s3After := s3; events := [] |}
  | Ok content =>
      let u := upload this (keyOf this asset) content s3 in
      let continue error' called :=
        if errorSet error' then
          {| outcome := Ok LoopReturned; s3After := s3After u;
             events := events u ++ called |}
        else
          let r := uploadLoop this outputPath rest (S c) error' (s3After u) in
          {| outcome := outcome r; s3After := s3After r;
             events := events u ++ called
                       ++ BarUpdate c (deriveFilename asset) :: events r |} in
      match outcome u with
      | Throw e =>
          {| outcome := Throw e; s3After := s3After u; events := events u |}
      | Ok Resolved => continue error []
      | Ok (Rejected e) => continue (Some e) [Callback (Some e)]
      end
  end%list.
Proof.
  cbn [uploadLoop]. fold (keyOf this asset).
  unfold bind, liftOutcome, ret, emitEvent.
  cbn [outcome s3After events].
  destruct (readFileSync (outputPath ++ "/" ++ deriveFilename asset))
    as [content|e]; [|reflexivity].
  cbn [outcome s3After events app].
  destruct (outcome (upload this (keyOf this asset) content s3)) as [[|e]|e];
    cbn [outcome s3After events app]; [| |reflexivity].
  - destruct (errorSet error); cbn [outcome s3After events app];
      f_equal; now rewrite ?app_nil_r.
  - destruct (errorSet (Some e)); cbn [outcome s3After events app];
      f_equal; now rewrite ?app_nil_r.
Qed.

(** What the trace of the loop looks like: the requests are those of the
    first files of the upload set, in order, and either all of them were
    answered with status 200, or all but the last, after which the
    callback was called once, with a truthy value, and the loop
    returned. *)
Lemma uploadLoop_trace (assets : list string) :
  forall (c : nat) (error : option JsValue) (s3 : option Client),
    errorSet error = false ->
    let run := uploadLoop this outputPath assets c error s3 in
    putKeys (events run)
    = map (keyOf this) (firstn (List.length (sends (events run))) assets) /\
    (putResults (events run)
     = repeat true (List.length (sends (events run)))
     \/
     exists k e,
       putResults (events run) = (repeat true k ++ [false])%list /\
       callbacks (events run) = [Some e] /\
       truthyValue e = true /\
       outcome run = Ok LoopReturned).
Proof.
  induction assets as [|asset rest IH]; intros c error s3 Herr.
  - split; [reflexivity|left; reflexivity].
  - cbv zeta. rewrite uploadLoop_cons.
    destruct (readFileSync (outputPath ++ "/" ++ deriveFilename asset))
      as [content|e]; [|split; [reflexivity|left; reflexivity]].
    cbv zeta. destruct s3 as [cl|].
    + destruct (upload_with_client this (keyOf this asset) content cl)
        as (Hs3 & Hsends & Hcb & _ & Hok & Hfail & _).
      destruct (carriesStatus200
                  (snd (send cl (putParams this (keyOf this asset) content))))
        eqn:E.
      * rewrite (Hok eq_refl), Herr. cbn [outcome s3After events].
        specialize (IH (S c) error
                       (s3After (upload this (keyOf this asset) content
                                   (Some cl))) Herr).
        cbv zeta in IH. destruct IH as (IHk & IHr).
        unfold putKeys, putResults in *.
        rewrite !sends_app, Hsends. cbn [sends app List.length firstn map].
        cbn [fst snd PutObject.Key putParams]. rewrite E.
        split; [now rewrite IHk|].
        destruct IHr as [IHr|(k & e & IHr & IHc & IHt & IHo)].
        -- left. now rewrite IHr.
        -- right. exists (S k), e. rewrite IHr.
           rewrite !callbacks_app, Hcb. cbn [callbacks app].
           repeat split; assumption.
      * destruct (Hfail eq_refl) as (reason & Ho & Ht).
        rewrite Ho. cbn [errorSet]. rewrite Ht.
        cbn [outcome s3After events].
        unfold putKeys, putResults.
        rewrite !sends_app, !callbacks_app, Hsends, Hcb.
        cbn [sends callbacks app List.length firstn map].
        cbn [fst snd PutObject.Key putParams]. rewrite E.
        split; [reflexivity|].
        right. exists 0, reason. repeat split; assumption.
    + rewrite upload_without_client. cbn [outcome errorSet truthyValue].
      cbn [s3After events]. split; [reflexivity|left; reflexivity].
Qed.

Lemma sends_logged (msg : string) : sends (logged this msg) = [].
Proof. unfold logged. destruct (negb (quiet this)); reflexivity. Qed.

Lemma callbacks_logged (msg : string) : callbacks (logged this msg) = [].
Proof. unfold logged. destruct (negb (quiet this)); reflexivity. Qed.

Lemma log_run (msg : string) (s3 : option Client) :
  log this msg s3
  = {| outcome := Ok tt; s3After := s3; events := logged this msg |}.
Proof. unfold log, logged. destruct (negb (quiet this)); reflexivity. Qed.

(** The hook around the loop. *)
Lemma afterEmit_run (s3 : option Client) :
  let r := uploadLoop this outputPath (filesToUpload this) 1 None s3 in
  afterEmit this outputPath s3 =
  {| outcome := match outcome r with Ok _ => Ok tt | Throw e => Throw e end;
     s3After := s3After r;
     events :=
       logged this (uploadingMessage this)
       ++ BarStart (List.length (filesToUpload this)) 0 "Starting..."
       :: events r
       ++ match outcome r with
          | Ok LoopDone =>
              BarStop :: logged this "Finished!" ++ [Callback None]
          | _ => []
          end |}%list.
Proof.
  cbv zeta. unfold afterEmit, bind, emitEvent, ret. rewrite !log_run.
  cbn [outcome s3After events].
  destruct (outcome (uploadLoop this outputPath (filesToUpload this) 1 None s3))
    as [[|]|e]; cbn [outcome s3After events app]; rewrite ?log_run;
    cbn [outcome s3After events app]; f_equal;
    rewrite ?app_nil_r, <- ?app_assoc; reflexivity.
Qed.

Lemma nth_error_all_true (n i : nat) :
  nth_error (repeat true n) i <> Some false.
Proof.
  intros H. apply nth_error_In, repeat_spec in H. discriminate H.
Qed.

Lemma nth_error_first_false (k i : nat) :
  nth_error (repeat true k ++ [false]) i = Some false -> i = k.
Proof.
  intros H. destruct (Nat.lt_trichotomy i k) as [Hlt|[Heq|Hgt]].
  - rewrite nth_error_app1 in H by now rewrite repeat_length.
    now apply nth_error_all_true in H.
  - exact Heq.
  - rewrite nth_error_app2 in H by (rewrite repeat_length; lia).
    rewrite repeat_length in H.
    destruct (i - k) as [|[|d]] eqn:E; [lia|discriminate H|discriminate H].
Qed.

(** ** C1: the loop stops at the first failed PUT *)

(** C1: when the PUT for a file of the upload set fails (a response
    without status 200, or an error thrown by the client), the requests
    made are exactly those for the files up to that one, in order, all
    before it succeeded, none follows it, and the hook callback is called
    exactly once, with a truthy value (the failure signal).  Files are
    counted from 0 here: [i] is the position of the failed request. *)
Theorem afterEmit_fails_fast (s3 : option Client) (i : nat)
  (params : PutObject.Params) (response : PutObject.Response) :
  let run := afterEmit this outputPath s3 in
  nth_error (sends (events run)) i = Some (params, response) ->
  carriesStatus200 response = false ->
  putKeys (events run)
  = map (keyOf this) (firstn (S i) (filesToUpload this)) /\
  putResults (events run) = (repeat true i ++ [false])%list /\
  (exists e, callbacks (events run) = [Some e] /\ truthyValue e = true) /\
  outcome run = Ok tt.
Proof.
  cbv zeta. rewrite afterEmit_run. cbv zeta. cbn [outcome events].
  pose proof (uploadLoop_trace (filesToUpload this) 1 None s3 eq_refl)
    as Htrace.
  cbv zeta in Htrace.
  set (r := uploadLoop this outputPath (filesToUpload this) 1 None s3) in *.
  assert (Hsends :
            sends (logged this (uploadingMessage this)
                   ++ BarStart (List.length (filesToUpload this)) 0
                        "Starting..."
                   :: events r
                   ++ match outcome r with
                      | Ok LoopDone =>
                          BarStop :: logged this "Finished!" ++ [Callback None]
                      | _ => []
                      end)
            = sends (events r)).
  { rewrite sends_app, sends_logged. cbn [app sends]. rewrite sends_app.
    destruct (outcome r) as [[|]|e]; cbn [sends];
      rewrite ?sends_app, ?sends_logged; cbn [sends app];
      now rewrite app_nil_r. }
  unfold putKeys, putResults in *. rewrite Hsends.
  intros Hnth Hfailed.
  assert (Hres : nth_error
                   (map (fun s => carriesStatus200 (snd s)) (sends (events r)))
                   i = Some false).
  { rewrite nth_error_map, Hnth. cbn. now rewrite Hfailed. }
  destruct Htrace as (Hkeys & [Hall|(k & e & Hresults & Hcb & Ht & Ho)]).
  - rewrite Hall in Hres. now apply nth_error_all_true in Hres.
  - rewrite Hresults in Hres. apply nth_error_first_false in Hres. subst k.
    assert (Hlen : List.length (sends (events r)) = S i).
    { apply (f_equal (@List.length bool)) in Hresults.
      rewrite length_map, length_app, repeat_length in Hresults.
      cbn in Hresults. lia. }
    rewrite Hlen in Hkeys.
    rewrite Ho. split; [exact Hkeys|]. split; [exact Hresults|].
    split; [|reflexivity].
    exists e. split; [|exact Ht].
    rewrite callbacks_app, callbacks_logged. cbn [app callbacks].
    rewrite callbacks_app, Hcb. reflexivity.
Qed.

End LoopProperties.

(** The scenario of the specification: three files, the second PUT is
    answered with a status other than 200. *)
Lemma afterEmit_fails_fast_witness :
  let run :=
    @afterEmit nat Fixtures.secondPutFails Fixtures.distHost
      (Fixtures.bareUploader ["a.js"; "b.js"; "c.js"]) "dist" (Some 0) in
  putKeys (events run) = ["a.js"; "b.js"] /\
  putResults (events run) = [true; false] /\
  (exists e, callbacks (events run) = [Some e] /\ truthyValue e = true) /\
  outcome run = Ok tt.
Proof.
  exact (@afterEmit_fails_fast nat Fixtures.secondPutFails Fixtures.distHost
           (Fixtures.bareUploader ["a.js"; "b.js"; "c.js"]) "dist" (Some 0) 1
           _ (statusResponse 500) eq_refl eq_refl).
Defined.

(** When every PUT succeeds the bar advances from 1 to the number of
    files and the callback is called once, without an error. *)
Example afterEmit_all_succeed :
  events (@afterEmit nat Fixtures.allPutsSucceed Fixtures.distHost
            (Fixtures.bareUploader ["/a.js"; "b.js?v=123"]) "dist" (Some 0))
  = [ConsoleLog
       (carriageReturnLineFeed ++ carriageReturnLineFeed
        ++ "Uploading 2 assets to 'bucket'...");
     BarStart 2 0 "Starting...";
     Send (@putParams Fixtures.distHost (Fixtures.bareUploader [])
             "a.js" "A") (statusResponse 200);
     BarUpdate 1 "a.js";
     Send (@putParams Fixtures.distHost (Fixtures.bareUploader [])
             "b.js" "B") (statusResponse 200);
     BarUpdate 2 "b.js";
     BarStop;
     ConsoleLog "Finished!";
     Callback None].
Proof. reflexivity. Qed.

(** Without a client the first upload is rejected, and the loop returns
    after one call of the callback. *)
Example afterEmit_without_client :
  callbacks
    (events (@afterEmit nat Fixtures.allPutsSucceed Fixtures.distHost
               (Fixtures.bareUploader ["a.js"; "b.js"]) "dist" None))
  = [Some (VError (typeError "send"))].
Proof. reflexivity. Qed.

Lemma upload_resolves_iff_status_200_witness :
  carriesStatus200
    (snd (@send nat Fixtures.allPutsSucceed 0
            (@putParams Fixtures.distHost (Fixtures.bareUploader [])
               "a.js" "A"))) = true /\
  outcome (@upload nat Fixtures.allPutsSucceed Fixtures.distHost
             (Fixtures.bareUploader []) "a.js" "A" (Some 0)) = Ok Resolved.
Proof.
  split; [reflexivity|].
  apply (proj1 (proj2 (@upload_resolves_iff_status_200 nat
                         Fixtures.allPutsSucceed Fixtures.distHost
                         (Fixtures.bareUploader []) "a.js" "A" 0))).
  reflexivity.
Defined.

(** ** The constructor and [removePaths] *)

Section ConstructorProperties.

Context {Client : Type} {client : RemoteClient Client} {host : Host}.

Lemma push_keys (paths : list string) :
  forall acc,
    fold_left
      (fun objects path =>
         (objects ++ [ {| DeleteObjects.Key := path |} ])%list)
      paths acc
    = (acc ++ map (fun path => {| DeleteObjects.Key := path |}) paths)%list.
Proof.
  induction paths as [|p paths IH]; intros acc; cbn [fold_left map].
  - now rewrite app_nil_r.
  - rewrite IH, <- app_assoc. reflexivity.
Qed.

Lemma deleteParams_objects (this : Uploader) (paths : list string) :
  DeleteObjects.Objects (deleteParams this paths)
  = map (fun path => {| DeleteObjects.Key := path |}) paths.
Proof. unfold deleteParams. cbn [DeleteObjects.Objects]. apply push_keys. Qed.

(** [removePaths] always returns: whatever the delete does, its promise
    is fulfilled. *)
Lemma removePaths_run (this : Uploader) (paths : list string)
  (s3 : option Client) :
  removePaths this paths s3 =
  match s3 with
  | None =>
      {| outcome := Ok tt; s3After := None;
         events := [deleteErrorLogged (typeError "deleteObjects")] |}
  | Some c =>
      let params := deleteParams this paths in
      {| outcome := Ok tt;
         s3After := Some (fst (deleteObjects c params));
         events :=
           DeleteCall params (snd (deleteObjects c params))
           :: deleteReport (snd (deleteObjects c params)) |}
  end.
Proof.
  destruct s3 as [c|]; [|reflexivity].
  unfold removePaths, tryCatch, awaitDeleteObjects, bind, getS3.
  cbn [outcome s3After events].
  destruct (deleteObjects c (deleteParams this paths))
    as [c' [err|[|err]|settles]]; reflexivity.
Qed.

Lemma constructor_run (options : Options.t) (s3 : option Client) :
  let o := defaultRegion options in
  let this := instanceBeforeRemove o in
  LaravelMixS3Uploader options s3 =
  match Options.remove o with
  | Some paths =>
      let r := removePaths this paths (clientAfter options s3) in
      {| outcome := Ok (constructed options, o);
         s3After := s3After r;
         events := clientEvents options ++ events r |}
  | None =>
      {| outcome := Ok (constructed options, o);
         s3After := clientAfter options s3;
         events := clientEvents options |}
  end%list.
Proof.
  cbv zeta.
  unfold LaravelMixS3Uploader, clientAfter, clientEvents, constructed.
  unfold bind, notAwaited, ret, emitEvent, setS3.
  destruct (clientWanted (defaultRegion options));
    destruct (Options.remove (defaultRegion options));
    cbn [outcome s3After events app]; rewrite ?app_nil_r; reflexivity.
Qed.

Lemma defaultRegion_remove (options : Options.t) :
  Options.remove (defaultRegion options) = Options.remove options.
Proof.
  unfold defaultRegion.
  destruct (negb (truthy (Options.region options))); reflexivity.
Qed.

Lemma deleteCalls_clientEvents (options : Options.t) :
  deleteCalls (clientEvents options) = [].
Proof.
  unfold clientEvents.
  destruct (clientWanted (defaultRegion options)); reflexivity.
Qed.

Lemma deleteReport_only_errors (response : DeleteObjects.Response)
  (e : Event) :
  In e (deleteReport response) -> exists err, e = deleteErrorLogged err.
Proof.
  destruct response as [err|[|err]|settles]; cbn [deleteReport];
    intros H; try destruct H as [<-|[]]; try destruct H; eauto.
Qed.

Lemma deleteCalls_deleteReport (response : DeleteObjects.Response) :
  deleteCalls (deleteReport response) = [].
Proof. now destruct response as [err|[|err]|settles]. Qed.

(** ** C9: deleting at construction *)

(** C9 (amended): for every configuration with a remove list,
    construction completes whatever the delete does, and [removePaths]
    passes no error on.  When a client exists at that point, exactly one
    batch delete is issued, for those keys, and an error that the call
    throws is logged and goes no further; when there is none, no delete
    is issued, and the [TypeError] of the call on [undefined] is logged
    likewise. *)
Theorem construction_survives_delete (options : Options.t)
  (s3 : option Client) (paths : list string) :
  Options.remove options = Some paths ->
  let run := LaravelMixS3Uploader options s3 in
  let this := instanceBeforeRemove (defaultRegion options) in
  let params := deleteParams this paths in
  outcome run = Ok (constructed options, defaultRegion options) /\
  (forall s3' e, outcome (removePaths this paths s3') <> Throw e) /\
  DeleteObjects.Objects params
  = map (fun path => {| DeleteObjects.Key := path |}) paths /\
  match clientAfter options s3 with
  | Some c =>
      let response := snd (deleteObjects c params) in
      deleteCalls (events run) = [(params, response)] /\
      (forall err,
          response = DeleteObjects.Threw err ->
          In (deleteErrorLogged err) (events run))
  | None =>
      deleteCalls (events run) = [] /\
      In (deleteErrorLogged (typeError "deleteObjects")) (events run)
  end.
Proof.
  intros Hremove. cbv zeta. rewrite constructor_run. cbv zeta.
  rewrite defaultRegion_remove, Hremove.
  cbn [outcome events]. split; [reflexivity|].
  split; [intros s3' e; rewrite removePaths_run; now destruct s3'|].
  split; [apply deleteParams_objects|].
  rewrite removePaths_run.
  destruct (clientAfter options s3) as [c|]; cbv zeta; cbn [events].
  - rewrite deleteCalls_app, deleteCalls_clientEvents. cbn [app deleteCalls].
    rewrite deleteCalls_deleteReport. split; [reflexivity|].
    intros err H. rewrite H. apply in_or_app. right. right. now left.
  - rewrite deleteCalls_app, deleteCalls_clientEvents.
    split; [reflexivity|]. apply in_or_app. right. now left.
Qed.

(** ** C7: the default region *)

(** C7 (amended): when the configuration has no region, the constructor
    sets it to [us-east-1], whether an endpoint is supplied or not; the
    client, when key and secret are given, is made with that region and
    with the endpoint as supplied. *)
Theorem region_defaulted_whenever_absent (options : Options.t)
  (s3 : option Client) :
  truthy (Options.region options) = false ->
  let run := LaravelMixS3Uploader options s3 in
  (exists this o,
      outcome run = Ok (this, o) /\
      Options.region o = Some "us-east-1" /\
      Options.endpoint o = Options.endpoint options) /\
  (truthy (Options.key options) = true ->
   truthy (Options.secret options) = true ->
   exists cfg rest,
     events run = NewS3 cfg :: rest /\
     S3Config.region cfg = Some "us-east-1" /\
     S3Config.endpoint cfg
     = whenTruthy (fun s => s) (Options.endpoint options)).
Proof.
  intros Hregion. cbv zeta. rewrite constructor_run. cbv zeta.
  assert (Ho : defaultRegion options
               = {| Options.key := Options.key options;
                    Options.secret := Options.secret options;
                    Options.bucket := Options.bucket options;
                    Options.region := Some "us-east-1";
                    Options.endpoint := Options.endpoint options;
                    Options.sessionToken := Options.sessionToken options;
                    Options.source := Options.source options;
                    Options.prefix := Options.prefix options;
                    Options.acl := Options.acl options;
                    Options.cache := Options.cache options;
                    Options.includes := Options.includes options;
                    Options.excludes := Options.excludes options;
                    Options.remove := Options.remove options;
                    Options.quiet := Options.quiet options |}).
  { unfold defaultRegion. now rewrite Hregion. }
  split.
  - exists (constructed options), (defaultRegion options).
    split; [now destruct (Options.remove (defaultRegion options))|].
    rewrite Ho. split; reflexivity.
  - intros Hkey Hsecret.
    assert (Hwanted : clientWanted (defaultRegion options) = true).
    { rewrite Ho. unfold clientWanted. cbn [Options.key Options.secret
        Options.region Options.endpoint]. now rewrite Hkey, Hsecret. }
    exists (clientConfig (defaultRegion options)).
    unfold clientEvents. rewrite Hwanted.
    destruct (Options.remove (defaultRegion options));
      (eexists; split; [reflexivity|]); rewrite Ho; split; reflexivity.
Qed.

End ConstructorProperties.

Lemma construction_survives_delete_witness :
  let run :=
    @LaravelMixS3Uploader nat Fixtures.everyCallThrows
      Fixtures.removeWithCredentials None in
  Options.remove Fixtures.removeWithCredentials = Some ["old/a.js"] /\
  outcome run
  = Ok (constructed Fixtures.removeWithCredentials,
        defaultRegion Fixtures.removeWithCredentials) /\
  List.length (deleteCalls (events run)) = 1 /\
  In (deleteErrorLogged Fixtures.networkDown) (events run).
Proof.
  pose proof (@construction_survives_delete nat Fixtures.everyCallThrows
                Fixtures.removeWithCredentials None ["old/a.js"] eq_refl)
    as (Hrun & _ & _ & Hcalls & Hlogged).
  split; [reflexivity|]. split; [exact Hrun|].
  split; [now rewrite Hcalls|].
  apply Hlogged. reflexivity.
Defined.

(** C9, as the claim states it, fails: a configuration with a remove list
    but without credentials has no client to issue the delete with. *)
Lemma delete_not_issued_without_client :
  ~ (forall (options : Options.t) (paths : list string),
        Options.remove options = Some paths ->
        List.length
          (deleteCalls
             (events (@LaravelMixS3Uploader nat Fixtures.allPutsSucceed
                        options None))) = 1).
Proof.
  intros H.
  specialize (H Fixtures.removeWithoutCredentials ["old/a.js"] eq_refl).
  discriminate H.
Qed.

Lemma region_defaulted_whenever_absent_witness :
  let run :=
    @LaravelMixS3Uploader nat Fixtures.allPutsSucceed
      Fixtures.endpointOnly None in
  truthy (Options.region Fixtures.endpointOnly) = false /\
  (exists this o,
      outcome run = Ok (this, o) /\
      Options.region o = Some "us-east-1" /\
      Options.endpoint o = Some "http://localhost:9000").
Proof.
  split; [reflexivity|].
  exact (proj1 (@region_defaulted_whenever_absent nat Fixtures.allPutsSucceed
                  Fixtures.endpointOnly None eq_refl)).
Defined.

(** C7, as the claim states it, fails: with an endpoint and no region,
    the region does not stay absent. *)
Lemma region_defaulted_despite_endpoint :
  ~ (forall (options : Options.t) (this : Uploader) (o : Options.t),
        truthy (Options.region options) = false ->
        truthy (Options.endpoint options) = true ->
        outcome (@LaravelMixS3Uploader nat Fixtures.allPutsSucceed
                   options None) = Ok (this, o) ->
        Options.region o = Options.region options).
Proof.
  intros H.
  specialize (H Fixtures.endpointOnly _ _ eq_refl eq_refl eq_refl).
  discriminate H.
Qed.

(** ** C4: the remote key *)

(** C4, as the claim states it, fails: a prefix that is only a slash is
    configured, yet the key is made from the source. *)
Lemma slash_prefix_does_not_win :
  ~ (forall (options : Options.t) (f : string),
        truthy (Options.prefix options) = true ->
        remotePath (constructed options) f
        = toStr (prefix (constructed options)) ++ "/" ++ f).
Proof.
  intros H.
  specialize (H (Fixtures.withPrefixAndSource (Some "/") (Some "s")) "f.js"
                eq_refl).
  discriminate H.
Qed.

(** C4 (amended): the prefix and the source of an instance are the
    configured ones with one leading and one trailing slash stripped.
    When that prefix is not empty the remote key of a file name [f] is
    the prefix, a slash and [f], whatever the source; otherwise, when
    that source is not empty, it is the source, a slash and [f];
    otherwise it is [f] alone. *)
Theorem remotePath_resolution (options : Options.t) (f : string) :
  let this := constructed options in
  prefix this = whenTruthy removeSlashes (Options.prefix options) /\
  source this = whenTruthy removeSlashes (Options.source options) /\
  (forall p, prefix this = Some p -> p <> EmptyString ->
             remotePath this f = p ++ "/" ++ f) /\
  (forall s, truthy (prefix this) = false ->
             source this = Some s -> s <> EmptyString ->
             remotePath this f = s ++ "/" ++ f) /\
  (truthy (prefix this) = false -> truthy (source this) = false ->
   remotePath this f = f).
Proof.
  cbv zeta.
  split; [unfold constructed, defaultRegion;
          now destruct (negb (truthy (Options.region options)))|].
  split; [unfold constructed, defaultRegion;
          now destruct (negb (truthy (Options.region options)))|].
  generalize (constructed options). intros this. unfold remotePath.
  split; [|split].
  - intros p Hp Hne. rewrite Hp. destruct p; [congruence|reflexivity].
  - intros s0 Hp Hs Hne. rewrite Hp, Hs. destruct s0; [congruence|reflexivity].
  - intros Hp Hs. now rewrite Hp, Hs.
Qed.

Lemma remotePath_resolution_witness :
  let this :=
    constructed (Fixtures.withPrefixAndSource (Some "p") (Some "s")) in
  prefix this = Some "p" /\ "p" <> EmptyString /\
  remotePath this "f.js" = "p/f.js".
Proof.
  split; [reflexivity|]. split; [discriminate|].
  apply (proj1 (proj2 (proj2
           (remotePath_resolution
              (Fixtures.withPrefixAndSource (Some "p") (Some "s")) "f.js")))
           "p" eq_refl).
  discriminate.
Defined.

Example remotePath_examples :
  remotePath (constructed (Fixtures.withPrefixAndSource (Some "p") (Some "s")))
    "f.js" = "p/f.js" /\
  remotePath (constructed (Fixtures.withPrefixAndSource None (Some "s")))
    "f.js" = "s/f.js" /\
  remotePath (constructed (Fixtures.withPrefixAndSource None None))
    "f.js" = "f.js" /\
  deriveFilename "app.js?v=123" = "app.js".
Proof. repeat split. Qed.

(** ** C10: the quiet flag *)

Section QuietProperties.

Context {Client : Type} {client : RemoteClient Client} {host : Host}.

Lemma upload_never_logs (this : Uploader) (filename content : string)
  (s3 : option Client) (e : Event) :
  In e (events (upload this filename content s3)) -> isConsoleLog e = false.
Proof.
  destruct s3 as [c|].
  - destruct (upload_with_client this filename content c)
      as (_ & _ & _ & (errors & -> & Herrors) & _).
    intros [<-|H]; [reflexivity|now apply Herrors].
  - rewrite upload_without_client. intros [<-|[]]. reflexivity.
Qed.

Lemma uploadLoop_never_logs (this : Uploader) (outputPath : string)
  (assets : list string) :
  forall (c : nat) (error : option JsValue) (s3 : option Client) (e : Event),
    In e (events (uploadLoop this outputPath assets c error s3)) ->
    isConsoleLog e = false.
Proof.
  induction assets as [|asset rest IH]; intros c error s3 e.
  - intros [].
  - rewrite uploadLoop_cons.
    destruct (readFileSync (outputPath ++ "/" ++ deriveFilename asset))
      as [content|err]; [|intros []].
    cbv zeta.
    pose proof (upload_never_logs this (keyOf this asset) content s3) as Hu.
    destruct (outcome (upload this (keyOf this asset) content s3))
      as [[|reason]|err]; [| |apply Hu].
    + destruct (errorSet error); cbn [events]; intros H;
        repeat (apply in_app_or in H; destruct H as [H|H]);
        try (now apply Hu); try destruct H as [<-|H];
        try reflexivity; try (now destruct H); eauto.
    + destruct (errorSet (Some reason)); cbn [events]; intros H;
        repeat (apply in_app_or in H; destruct H as [H|H]);
        try (now apply Hu); repeat (destruct H as [<-|H]; try reflexivity);
        try (now destruct H); eauto.
Qed.

(** C10 (amended): with the quiet flag set, nothing is written through
    [console.log] during construction, during the upload phase and during
    deletion: the messages of [log] are suppressed.  (What is written
    through [console.error], on a thrown upload error or a failed delete,
    is not.) *)
Theorem quiet_suppresses_console_log (options : Options.t) (this : Uploader)
  (outputPath : string) (paths : list string) (s3 : option Client)
  (e : Event) :
  Options.quiet options = true ->
  quiet this = true ->
  In e (events (LaravelMixS3Uploader options s3)
        ++ events (afterEmit this outputPath s3)
        ++ events (removePaths this paths s3))%list ->
  isConsoleLog e = false.
Proof.
  intros _ Hquiet H.
  apply in_app_or in H. destruct H as [H|H];
    [|apply in_app_or in H; destruct H as [H|H]].
  - rewrite constructor_run in H. cbv zeta in H.
    assert (Hc : In e (clientEvents options) -> isConsoleLog e = false).
    { unfold clientEvents.
      destruct (clientWanted (defaultRegion options));
        [intros [<-|[]]; reflexivity|intros []]. }
    destruct (Options.remove (defaultRegion options)) as [ps|];
      cbn [events] in H; [|now apply Hc].
    apply in_app_or in H. destruct H as [H|H]; [now apply Hc|].
    rewrite removePaths_run in H.
    destruct (clientAfter options s3) as [c|]; cbv zeta in H; cbn [events] in H.
    + destruct H as [<-|H]; [reflexivity|].
      apply deleteReport_only_errors in H. destruct H as (err & ->).
      reflexivity.
    + destruct H as [<-|[]]. reflexivity.
  - rewrite afterEmit_run in H. cbv zeta in H. cbn [events] in H.
    unfold logged in H. rewrite Hquiet in H. cbn [negb app] in H.
    destruct H as [<-|H]; [reflexivity|].
    apply in_app_or in H. destruct H as [H|H].
    + now apply uploadLoop_never_logs in H.
    + destruct (outcome (uploadLoop this outputPath (filesToUpload this) 1
                           None s3)) as [[|]|err]; cbn in H;
        repeat (destruct H as [<-|H]; try reflexivity); now destruct H.
  - rewrite removePaths_run in H.
    destruct s3 as [c|]; cbv zeta in H; cbn [events] in H.
    + destruct H as [<-|H]; [reflexivity|].
      apply deleteReport_only_errors in H. destruct H as (err & ->).
      reflexivity.
    + destruct H as [<-|[]]. reflexivity.
Qed.

End QuietProperties.

Lemma quiet_suppresses_console_log_witness :
  let this :=
    withFilesToUpload (constructed Fixtures.removeWithCredentials) ["a.js"] in
  Options.quiet Fixtures.removeWithCredentials = true /\
  quiet this = true /\
  isConsoleLog (Callback None) = false.
Proof.
  split; [reflexivity|]. split; [reflexivity|].
  apply (@quiet_suppresses_console_log nat Fixtures.allPutsSucceed
           Fixtures.distHost Fixtures.removeWithCredentials
           (withFilesToUpload (constructed Fixtures.removeWithCredentials)
              ["a.js"])
           "dist" [] (Some 0) (Callback None) eq_refl eq_refl).
  vm_compute. tauto.
Defined.

(** C10, as the claim states it, fails: with the quiet flag set, an
    upload whose PUT throws is still reported through [console.error]. *)
Lemma quiet_upload_error_still_printed :
  ~ (forall (this : Uploader) (outputPath : string) (s3 : option nat),
        quiet this = true ->
        consoleOutput
          (events (@afterEmit nat Fixtures.everyCallThrows Fixtures.distHost
                     this outputPath s3)) = []).
Proof.
  intros H.
  specialize (H (withFilesToUpload
                   (constructed Fixtures.removeWithCredentials) ["a.js"])
                "dist" (Some 0) eq_refl).
  discriminate H.
Qed.

(** ** C5: the directory walker *)

(** The example of the specification: with the source [a], the walk of
    [a] gives [x.txt] and [b/y.txt], in the order of the listings. *)
Example getIncludes_example :
  @getIncludes Fixtures.exampleTree 3
    (constructed (Fixtures.withSourceAndLists (Some "a") (Some ["a"]) None))
    ["a"]
  = Some (Ok ["x.txt"; "b/y.txt"]).
Proof. reflexivity. Qed.

(** An excluded directory is not entered. *)
Example getIncludes_prunes :
  @getIncludes Fixtures.treeWithExcluded 2
    (constructed
       (Fixtures.withSourceAndLists (Some "a") (Some ["a"])
          (Some ["a/skip"])))
    ["a"]
  = Some (Ok ["x.txt"]).
Proof. reflexivity. Qed.

(** A walk that finishes within some budget gives the same with more. *)
Lemma forEachItem_ext {A : Type}
  (f g : A -> list string -> option (Outcome (list string)))
  (items : list A) :
  (forall item files o, f item files = Some o -> g item files = Some o) ->
  forall files o,
    forEachItem f items files = Some o -> forEachItem g items files = Some o.
Proof.
  intros Hfg. induction items as [|item rest IH]; intros files o;
    cbn [forEachItem]; [trivial|].
  destruct (f item files) as [[files'|e]|] eqn:E; [| |discriminate].
  - rewrite (Hfg _ _ _ E). apply IH.
  - rewrite (Hfg _ _ _ E). trivial.
Qed.

Lemma traverse_more_fuel {host : Host} (this : Uploader) (fuel : nat) :
  forall currentPath files o,
    traverse fuel this currentPath files = Some o ->
    traverse (S fuel) this currentPath files = Some o.
Proof.
  induction fuel as [|fuel IH]; intros currentPath files o; [discriminate|].
  cbn [traverse].
  destruct (readdirSync currentPath) as [items|e]; [|trivial].
  apply forEachItem_ext. intros item files' o'.
  destruct (statSyncIsDirectory (removeSlashes (pathJoin currentPath item)))
    as [[|]|e]; trivial.
  destruct (shouldUpload this (removeSlashes (pathJoin currentPath item)));
    trivial.
  apply IH.
Qed.

(** What the walker makes of a file under the source directory: the
    source and the one character after it are cut off, whatever that
    character is. *)
Lemma includeFile_under_source (this : Uploader) (src itemPath : string)
  (files : list string) :
  source this = Some src ->
  startsWith itemPath src = true ->
  includeFile this itemPath files
  = Ok (if shouldUpload this (slice (String.length src + 1) itemPath)
        then files
             ++ [backslashesToSlashes (slice (String.length src + 1) itemPath)]
        else files)%list.
Proof.
  intros Hsrc Hstarts. unfold includeFile. rewrite Hsrc. cbn [toStr].
  rewrite Hstarts.
  now destruct (shouldUpload this (slice (String.length src + 1) itemPath)).
Qed.

Lemma startsWith_append (a b : string) : startsWith (a ++ b) a = true.
Proof.
  induction a as [|c a IH]; [reflexivity|].
  cbn. now rewrite Ascii.eqb_refl, IH.
Qed.

Lemma slice_append (a b : string) : slice (String.length a) (a ++ b) = b.
Proof. induction a as [|c a IH]; [reflexivity|exact IH]. Qed.

(** When a separator does follow the source, what is left is the path
    below the source directory. *)
Lemma includeFile_below_source (this : Uploader) (src rest : string)
  (files : list string) :
  source this = Some src ->
  includeFile this (src ++ "/" ++ rest) files
  = Ok (if shouldUpload this rest
        then files ++ [backslashesToSlashes rest]
        else files)%list.
Proof.
  intros Hsrc.
  rewrite (includeFile_under_source this _ files Hsrc)
    by apply startsWith_append.
  replace (String.length src + 1) with (String.length (src ++ "/")).
  - now rewrite <- append_assoc, slice_append.
  - clear. induction src as [|c src IH]; [reflexivity|].
    cbn. now rewrite IH.
Qed.

(** C5: where the code leaves the claim.  With the source [a], the file
    [ab/x.txt] is not under the source directory, yet the walker finds
    that its path starts with the source and cuts off two characters: the
    [b] of the directory name goes where the separator was expected, and
    the path collected is [/x.txt], not [ab/x.txt].  Without a source,
    the path is compared with the text [undefined], and the walk of a
    directory of that name throws. *)
Theorem getIncludes_cuts_into_sibling_name :
  @getIncludes Fixtures.siblingTree 2
    (constructed (Fixtures.withSourceAndLists (Some "a") (Some ["ab"]) None))
    ["ab"]
  = Some (Ok ["/x.txt"]) /\
  @getIncludes Fixtures.undefinedTree 2
    (constructed (Fixtures.withSourceAndLists None (Some ["undefined"]) None))
    ["undefined"]
  = Some (Throw (typeError "length")).
Proof. split; reflexivity. Qed.

(** ** C6: the upload set *)

(** What the [emit] hook makes of a webpack compilation: whatever the
    assets are, the instance's list stays as it was, but for the files
    found under the include directories. *)
Lemma emit_webpackCompilation {host : Host} (fuel : nat) (this : Uploader)
  (assetNames : list string) :
  emit fuel this (webpackCompilation assetNames) =
  match includes this with
  | Some dirs =>
      match getIncludes fuel this dirs with
      | None => None
      | Some (Throw e) => Some (Throw e, [])
      | Some (Ok found) =>
          Some (Ok (withFilesToUpload this (filesToUpload this ++ found)%list),
                [Callback None])
      end
  | None =>
      Some (Ok (withFilesToUpload this (filesToUpload this)), [Callback None])
  end.
Proof. reflexivity. Qed.

(** C6: where the code leaves the claim.  The hook goes through
    [compilation.filesToUpload], which a webpack compilation does not
    have, so none of the emitted assets enters the upload set; the first
    variant of the plugin goes through [compilation.assets] and collects
    them. *)
Theorem emit_collects_no_emitted_asset :
  @emit Fixtures.distHost 0 (Fixtures.bareUploader [])
    (webpackCompilation ["js/app.js"; "css/app.css"])
  = Some (Ok (Fixtures.bareUploader []), [Callback None]) /\
  Legacy.collectEmitted
    {| Legacy.assets := []; Legacy.exclude := None |}
    (webpackCompilation ["js/app.js"; "css/app.css"])
  = ["js/app.js"; "css/app.css"].
Proof. split; reflexivity. Qed.

(** * Further properties of the code *)

(** ** File names and slashes *)

Lemma append_length (a b : string) :
  String.length (a ++ b) = String.length a + String.length b.
Proof. induction a as [|c a IH]; cbn; [reflexivity|now rewrite IH]. Qed.

Lemma append_empty_r (s : string) : s ++ EmptyString = s.
Proof. induction s as [|c s IH]; cbn; [reflexivity|now rewrite IH]. Qed.

Lemma beforeQuestionMark_append (name query : string) :
  occurs question_mark name = false ->
  beforeQuestionMark (name ++ String question_mark query) = name.
Proof.
  induction name as [|c name IH]; cbn.
  - intros _. reflexivity.
  - destruct (Ascii.eqb c question_mark); [discriminate|].
    cbn. intros H. now rewrite IH.
Qed.

Lemma beforeQuestionMark_plain (s : string) :
  occurs question_mark s = false -> beforeQuestionMark s = s.
Proof.
  induction s as [|c s IH]; cbn; [reflexivity|].
  destruct (Ascii.eqb c question_mark); [discriminate|].
  cbn. intros H. now rewrite IH.
Qed.

Lemma occurs_beforeQuestionMark (s : string) :
  occurs question_mark (beforeQuestionMark s) = false.
Proof.
  induction s as [|c s IH]; cbn; [reflexivity|].
  destruct (Ascii.eqb c question_mark) eqn:E; [reflexivity|].
  cbn. now rewrite E, IH.
Qed.

Lemma occurs_stripTrailingSlash (c : ascii) (s : string) :
  occurs c s = false -> occurs c (stripTrailingSlash s) = false.
Proof.
  induction s as [|d s IH]; [trivial|].
  destruct s as [|d' s'].
  - cbn. destruct (Ascii.eqb d slash); [reflexivity|trivial].
  - rewrite stripTrailingSlash_cons.
    cbn [occurs]. intros H. apply orb_false_iff in H. destruct H as [H1 H2].
    rewrite H1. cbn [orb]. now apply IH.
Qed.

Lemma occurs_stripLeadingSlash (c : ascii) (s : string) :
  occurs c s = false -> occurs c (stripLeadingSlash s) = false.
Proof.
  destruct s as [|d s]; [trivial|]. cbn.
  destruct (Ascii.eqb d slash); [|trivial].
  intros H. apply orb_false_iff in H. tauto.
Qed.

(** The query suffix that build tools append to an asset name is dropped
    whole, from the first question mark on, and what the loop works with
    never holds a question mark. *)
Theorem deriveFilename_drops_query (name query asset : string) :
  occurs question_mark (deriveFilename asset) = false /\
  (occurs question_mark name = false ->
   deriveFilename (name ++ String question_mark query) = removeSlashes name).
Proof.
  split.
  - unfold deriveFilename, removeSlashes.
    apply occurs_stripTrailingSlash, occurs_stripLeadingSlash,
      occurs_beforeQuestionMark.
  - intros H. unfold deriveFilename. now rewrite beforeQuestionMark_append.
Qed.

Lemma deriveFilename_drops_query_witness :
  occurs question_mark "/js/app.js" = false /\
  deriveFilename "/js/app.js?id=1?x" = "js/app.js".
Proof.
  split; [reflexivity|].
  apply (proj2 (deriveFilename_drops_query "/js/app.js" "id=1?x"
                  EmptyString)).
  reflexivity.
Defined.

Lemma stripTrailingSlash_length (s : string) :
  String.length (stripTrailingSlash s)
  = String.length s - (if endsWithSlash s then 1 else 0).
Proof.
  destruct (stripTrailingSlash_spec s) as [[-> ->]|[H1 H2]].
  - lia.
  - rewrite H1. rewrite H2 at 2. rewrite append_length. cbn. lia.
Qed.

Lemma stripLeadingSlash_length (s : string) :
  String.length (stripLeadingSlash s)
  = String.length s - (if startsWithSlash s then 1 else 0).
Proof.
  destruct (stripLeadingSlash_spec s) as [[-> ->]|[H1 H2]].
  - lia.
  - rewrite H1. rewrite H2 at 2. cbn. lia.
Qed.

(** The strings [removeSlashes] leaves as they are, are exactly those
    with no slash at either end; any other string gets shorter. *)
Theorem removeSlashes_fixed_iff (s : string) :
  removeSlashes s = s
  <-> startsWithSlash s = false /\ endsWithSlash s = false.
Proof.
  split; [|intros [H1 H2]; now apply removeSlashes_fixed].
  intros H. apply (f_equal String.length) in H. unfold removeSlashes in H.
  rewrite stripTrailingSlash_length, stripLeadingSlash_length in H.
  destruct (startsWithSlash s) eqn:Es.
  - destruct s as [|c s]; [discriminate Es|]. cbn [String.length] in H.
    destruct (endsWithSlash (stripLeadingSlash (String c s))); lia.
  - split; [reflexivity|].
    destruct (stripLeadingSlash_spec s) as [[_ Hl]|[Hl _]]; [|congruence].
    rewrite Hl in H.
    destruct (endsWithSlash s) eqn:Ee; [|reflexivity].
    destruct s as [|c s]; [discriminate Ee|]. cbn [String.length] in H. lia.
Qed.

(** ** The path filter *)

Lemma backslashesToSlashes_append (a b : string) :
  backslashesToSlashes (a ++ b)
  = backslashesToSlashes a ++ backslashesToSlashes b.
Proof. induction a as [|c a IH]; cbn; [reflexivity|now rewrite IH]. Qed.

Lemma startsWith_extend (s q p : string) :
  startsWith s p = true -> startsWith (s ++ q) p = true.
Proof.
  revert s. induction p as [|c p IH]; intros s; [reflexivity|].
  destruct s as [|d s]; cbn; [discriminate|].
  destruct (Ascii.eqb d c); [apply IH|discriminate].
Qed.

Lemma excludedSpec_app (E1 E2 : list string) (p : string) :
  excludedSpec (E1 ++ E2) p <-> excludedSpec E1 p \/ excludedSpec E2 p.
Proof.
  unfold excludedSpec. split.
  - intros (e & Hin & H). apply in_app_or in Hin.
    destruct Hin; [left|right]; now exists e.
  - intros [(e & Hin & H)|(e & Hin & H)]; exists e;
      (split; [apply in_or_app; tauto|exact H]).
Qed.

(** Whatever lies below an excluded path is excluded: a path that the
    filter leaves out stays left out however it is extended.  This is
    what makes the pruning of a directory lose no file that the filter
    would have let through. *)
Theorem isExcluded_extends (this : Uploader) (p q : string) :
  isExcluded this p = true -> isExcluded this (p ++ q) = true.
Proof.
  unfold isExcluded. rewrite !isExcludedBy_spec.
  intros (e & Hin & H). exists e. split; [exact Hin|].
  rewrite backslashesToSlashes_append. now apply startsWith_extend.
Qed.

Lemma isExcluded_extends_witness :
  let this :=
    constructed
      (Fixtures.withSourceAndLists None None (Some ["public/assets/old"])) in
  isExcluded this "public/assets/old" = true /\
  isExcluded this "public/assets/old/img/logo.png" = true.
Proof.
  split; [reflexivity|].
  apply (isExcluded_extends
           (constructed
              (Fixtures.withSourceAndLists None None
                 (Some ["public/assets/old"])))
           "public/assets/old" "/img/logo.png").
  reflexivity.
Defined.

Lemma shouldUpload_normalised (this : Uploader) (p : string) :
  shouldUpload this (backslashesToSlashes p) = shouldUpload this p.
Proof.
  unfold shouldUpload, isExcluded. f_equal.
  apply eq_true_iff_eq. rewrite !isExcludedBy_spec. unfold excludedSpec.
  now rewrite backslashesToSlashes_idempotent.
Qed.

(** The filter does not tell a backslash from a forward slash: a path
    written with backslashes and the same path written with forward
    slashes get the same answer, and so do two lists that differ in
    nothing but that. *)
Theorem shouldUpload_separator_blind (this : Uploader) (p : string)
  (E : list string) :
  shouldUpload this (backslashesToSlashes p) = shouldUpload this p /\
  isExcludedBy (Some (map backslashesToSlashes E)) p
  = isExcludedBy (Some E) p.
Proof.
  split; [apply shouldUpload_normalised|].
  apply eq_true_iff_eq. rewrite !isExcludedBy_spec. unfold excludedSpec.
  split.
  - intros (e & Hin & H). apply in_map_iff in Hin.
    destruct Hin as (e0 & <- & Hin). exists e0. split; [exact Hin|].
    now rewrite backslashesToSlashes_idempotent in H.
  - intros (e & Hin & H). exists (backslashesToSlashes e).
    split; [now apply in_map|]. now rewrite backslashesToSlashes_idempotent.
Qed.

(** A longer exclude list excludes what either part excludes, and
    nothing else: the result for two lists put together is the
    disjunction of the results for each. *)
Theorem isExcludedBy_app (E1 E2 : list string) (p : string) :
  isExcludedBy (Some (E1 ++ E2)%list) p
  = isExcludedBy (Some E1) p || isExcludedBy (Some E2) p.
Proof.
  apply eq_true_iff_eq.
  rewrite orb_true_iff, !isExcludedBy_spec. apply excludedSpec_app.
Qed.

(** ** The directory walker *)

Lemma occurs_backslashesToSlashes (s : string) :
  occurs backslash (backslashesToSlashes s) = false.
Proof.
  induction s as [|c s IH]; [reflexivity|].
  cbn [occurs backslashesToSlashes].
  rewrite IH. destruct (Ascii.eqb c backslash) eqn:E; [reflexivity|].
  now rewrite E.
Qed.

Lemma forEachItem_extendedBy {A : Type}
  (f : A -> list string -> option (Outcome (list string)))
  (items : list A) :
  (forall item files, In item items ->
      f item files = extendedBy files (f item [])) ->
  forall files,
    forEachItem f items files = extendedBy files (forEachItem f items []).
Proof.
  induction items as [|item rest IH]; intros Hf files; cbn [forEachItem].
  - cbn. now rewrite app_nil_r.
  - rewrite (Hf item files) by now left.
    assert (IH' := IH (fun i fs Hin => Hf i fs (or_intror Hin))).
    destruct (f item []) as [[added|e]|]; cbn [extendedBy]; try reflexivity.
    rewrite (IH' (files ++ added)%list), (IH' added).
    destruct (forEachItem f rest []) as [[more|e]|]; cbn [extendedBy];
      try reflexivity.
    now rewrite app_assoc.
Qed.

Lemma forEachItem_same {A : Type}
  (f g : A -> list string -> option (Outcome (list string)))
  (items : list A) :
  (forall item files, In item items -> f item files = g item files) ->
  forall files, forEachItem f items files = forEachItem g items files.
Proof.
  induction items as [|item rest IH]; intros Hfg files; cbn [forEachItem];
    [reflexivity|].
  rewrite (Hfg item files) by now left.
  destruct (g item files) as [[files'|e]|]; try reflexivity.
  apply IH. intros i fs Hin. apply Hfg. now right.
Qed.

Lemma forEachItem_app {A : Type}
  (f : A -> list string -> option (Outcome (list string)))
  (xs ys : list A) (files : list string) :
  forEachItem f (xs ++ ys) files =
  match forEachItem f xs files with
  | Some (Ok files') => forEachItem f ys files'
  | other => other
  end.
Proof.
  revert files. induction xs as [|x xs IH]; intros files; cbn; [reflexivity|].
  destruct (f x files) as [[files'|e]|]; try reflexivity. apply IH.
Qed.

Section WalkerProperties.

Context {host : Host}.

Variable this : Uploader.

Lemma includeFile_extendedBy (itemPath : string) (files : list string) :
  Some (includeFile this itemPath files)
  = extendedBy files (Some (includeFile this itemPath [])).
Proof.
  unfold includeFile.
  destruct (startsWith itemPath (toStr (source this)));
    [destruct (source this)|]; cbn [extendedBy]; try reflexivity;
    match goal with
    | |- context [shouldUpload this ?q] => destruct (shouldUpload this q)
    end; cbn; rewrite ?app_nil_r; reflexivity.
Qed.

Lemma traverse_extendedBy (fuel : nat) :
  forall currentPath files,
    traverse fuel this currentPath files
    = extendedBy files (traverse fuel this currentPath []).
Proof.
  induction fuel as [|fuel IH]; intros currentPath files; [reflexivity|].
  cbn [traverse].
  destruct (readdirSync currentPath) as [items|e]; [|reflexivity].
  apply forEachItem_extendedBy. intros item fs _.
  destruct (statSyncIsDirectory (removeSlashes (pathJoin currentPath item)))
    as [[|]|e]; try reflexivity;
    destruct (shouldUpload this (removeSlashes (pathJoin currentPath item)));
    cbn [extendedBy]; rewrite ?app_nil_r; try reflexivity.
  - apply IH.
  - apply includeFile_extendedBy.
Qed.

(** The roots are walked one after the other and independently: the walk
    of two lists of roots put together gives what the first gives,
    followed by what the second gives; a root that throws, or does not
    finish, ends it there. *)
Theorem getIncludes_app (fuel : nat) (dirs1 dirs2 : list string) :
  getIncludes fuel this (dirs1 ++ dirs2) =
  match getIncludes fuel this dirs1 with
  | Some (Ok found1) =>
      match getIncludes fuel this dirs2 with
      | Some (Ok found2) => Some (Ok (found1 ++ found2)%list)
      | other => other
      end
  | other => other
  end.
Proof.
  unfold getIncludes. rewrite forEachItem_app.
  destruct (forEachItem (fun dir files => traverse fuel this dir files)
              dirs1 []) as [[found1|e]|]; try reflexivity.
  rewrite forEachItem_extendedBy
    by (intros dir files _; apply traverse_extendedBy).
  now destruct (forEachItem (fun dir files => traverse fuel this dir files)
                  dirs2 []) as [[found2|e]|].
Qed.

Lemma includeFile_collectable (itemPath : string) (found : list string) :
  includeFile this itemPath [] = Ok found -> Forall (collectable this) found.
Proof.
  unfold includeFile.
  destruct (startsWith itemPath (toStr (source this)));
    [destruct (source this) as [src|]; [|discriminate]|];
    match goal with
    | |- context [shouldUpload this ?q] =>
        destruct (shouldUpload this q) eqn:E
    end; intros H; inversion H; subst; constructor; try constructor;
    try (now rewrite shouldUpload_normalised);
    apply occurs_backslashesToSlashes.
Qed.

Lemma forEachItem_collectable {A : Type}
  (f : A -> list string -> option (Outcome (list string)))
  (items : list A) :
  (forall item files, f item files = extendedBy files (f item [])) ->
  (forall item found, f item [] = Some (Ok found) ->
                      Forall (collectable this) found) ->
  forall found, forEachItem f items [] = Some (Ok found) ->
                Forall (collectable this) found.
Proof.
  intros Hacc Hf. induction items as [|item rest IH]; intros found;
    cbn [forEachItem].
  - intros H. inversion H. constructor.
  - destruct (f item []) as [[first|e]|] eqn:E; try discriminate.
    rewrite forEachItem_extendedBy by (intros; apply Hacc).
    destruct (forEachItem f rest []) as [[more|e]|]; try discriminate.
    cbn. intros H. inversion H. apply Forall_app. split.
    + now apply (Hf item).
    + now apply IH.
Qed.

Lemma traverse_collectable (fuel : nat) :
  forall currentPath found,
    traverse fuel this currentPath [] = Some (Ok found) ->
    Forall (collectable this) found.
Proof.
  induction fuel as [|fuel IH]; intros currentPath found; [discriminate|].
  cbn [traverse].
  destruct (readdirSync currentPath) as [items|e]; [|discriminate].
  apply forEachItem_collectable.
  - intros item files.
    destruct (statSyncIsDirectory (removeSlashes (pathJoin currentPath item)))
      as [[|]|e]; try reflexivity;
      destruct (shouldUpload this (removeSlashes (pathJoin currentPath item)));
      cbn [extendedBy]; rewrite ?app_nil_r; try reflexivity.
    + apply traverse_extendedBy.
    + apply includeFile_extendedBy.
  - intros item found'.
    destruct (statSyncIsDirectory (removeSlashes (pathJoin currentPath item)))
      as [[|]|e]; try discriminate;
      destruct (shouldUpload this (removeSlashes (pathJoin currentPath item)));
      try (intros H; inversion H; constructor).
    + apply IH.
    + intros H. injection H as H. now apply includeFile_collectable in H.
Qed.

End WalkerProperties.

(** Every path the walker returns passes the filter, and is written with
    forward slashes only. *)
Theorem getIncludes_collectable {host : Host} (this : Uploader) (fuel : nat)
  (dirs found : list string) :
  getIncludes fuel this dirs = Some (Ok found) ->
  Forall (collectable this) found.
Proof.
  unfold getIncludes. apply forEachItem_collectable.
  - intros dir files. apply traverse_extendedBy.
  - intros dir found'. apply traverse_collectable.
Qed.

Lemma getIncludes_collectable_witness :
  let this :=
    constructed
      (Fixtures.withSourceAndLists (Some "a") (Some ["a"]) (Some ["a/skip"])) in
  @getIncludes Fixtures.treeWithExcluded 2 this ["a"] = Some (Ok ["x.txt"]) /\
  Forall (collectable this) ["x.txt"].
Proof.
  split; [reflexivity|].
  apply (@getIncludes_collectable Fixtures.treeWithExcluded
           (constructed
              (Fixtures.withSourceAndLists (Some "a") (Some ["a"])
                 (Some ["a/skip"])))
           2 ["a"] ["x.txt"]).
  reflexivity.
Defined.

Lemma traverse_same_listing (h1 h2 : Host) (this : Uploader) :
  (forall p, @statSyncIsDirectory h1 p = @statSyncIsDirectory h2 p) ->
  (forall a b, @pathJoin h1 a b = @pathJoin h2 a b) ->
  (forall p, shouldUpload this p = true ->
             @readdirSync h1 p = @readdirSync h2 p) ->
  forall fuel currentPath files,
    @readdirSync h1 currentPath = @readdirSync h2 currentPath ->
    @traverse h1 fuel this currentPath files
    = @traverse h2 fuel this currentPath files.
Proof.
  intros Hstat Hjoin Hlist.
  induction fuel as [|fuel IH]; intros currentPath files Hroot;
    [reflexivity|].
  cbn [traverse]. rewrite Hroot.
  destruct (@readdirSync h2 currentPath) as [items|e]; [|reflexivity].
  apply forEachItem_same. intros item fs _.
  rewrite Hjoin, Hstat.
  destruct (@statSyncIsDirectory h2
              (removeSlashes (@pathJoin h2 currentPath item)))
    as [[|]|e]; try reflexivity.
  destruct (shouldUpload this (removeSlashes (@pathJoin h2 currentPath item)))
    eqn:E; [|reflexivity].
  apply IH. now apply Hlist.
Qed.

(** The walker never lists an excluded directory: two file systems that
    differ in nothing but the listings of directories the filter leaves
    out (the roots apart, which are not filtered) give the same walk,
    whether it ends, throws or runs on. *)
Theorem getIncludes_never_lists_excluded (h1 h2 : Host) (this : Uploader)
  (fuel : nat) (dirs : list string) :
  (forall p, @statSyncIsDirectory h1 p = @statSyncIsDirectory h2 p) ->
  (forall a b, @pathJoin h1 a b = @pathJoin h2 a b) ->
  (forall p, shouldUpload this p = true ->
             @readdirSync h1 p = @readdirSync h2 p) ->
  (forall d, In d dirs -> @readdirSync h1 d = @readdirSync h2 d) ->
  @getIncludes h1 fuel this dirs = @getIncludes h2 fuel this dirs.
Proof.
  intros Hstat Hjoin Hlist Hroots. unfold getIncludes.
  apply forEachItem_same. intros dir files Hin.
  apply traverse_same_listing; auto.
Qed.

Lemma getIncludes_never_lists_excluded_witness :
  let this :=
    constructed
      (Fixtures.withSourceAndLists (Some "a") (Some ["a"]) (Some ["a/skip"])) in
  @getIncludes Fixtures.treeWithExcluded 2 this ["a"]
  = @getIncludes Fixtures.treeWithUnreadableExcluded 2 this ["a"].
Proof.
  apply getIncludes_never_lists_excluded.
  - reflexivity.
  - reflexivity.
  - intros p Hp. cbn [readdirSync Fixtures.treeWithUnreadableExcluded].
    destruct (String.eqb p "a/skip") eqn:E; [|reflexivity].
    apply String.eqb_eq in E. subst p. discriminate Hp.
  - intros d [<-|[]]. reflexivity.
Defined.

(** A root that cannot be listed ends the walk with the error of the file
    system, and the [emit] hook with it: its callback is not called. *)
Theorem emit_aborts_on_unreadable_root {host : Host} (this : Uploader)
  (fuel : nat) (dir : string) (rest : list string)
  (compilation : Compilation) (e : JsError) :
  includes this = Some (dir :: rest) ->
  readdirSync dir = Throw e ->
  getIncludes (S fuel) this (dir :: rest) = Some (Throw e) /\
  emit (S fuel) this compilation = Some (Throw e, []).
Proof.
  intros Hincludes Hdir.
  assert (H : getIncludes (S fuel) this (dir :: rest) = Some (Throw e)).
  { unfold getIncludes. cbn [forEachItem traverse]. now rewrite Hdir. }
  split; [exact H|]. unfold emit. now rewrite Hincludes, H.
Qed.

Lemma emit_aborts_on_unreadable_root_witness :
  let this :=
    constructed
      (Fixtures.withSourceAndLists (Some "a") (Some ["missing"; "a"]) None) in
  @emit Fixtures.exampleTree 3 this (webpackCompilation ["js/app.js"])
  = Some (Throw (Fixtures.noEntry "missing"), []).
Proof.
  exact (proj2 (@emit_aborts_on_unreadable_root Fixtures.exampleTree
                  (constructed
                     (Fixtures.withSourceAndLists (Some "a")
                        (Some ["missing"; "a"]) None))
                  2 "missing" ["a"] (webpackCompilation ["js/app.js"])
                  (Fixtures.noEntry "missing") eq_refl eq_refl)).
Defined.

(** ** The [emit] hook *)

Lemma traverse_withFilesToUpload {host : Host} (this : Uploader)
  (kept : list string) (fuel : nat) :
  forall currentPath files,
    traverse fuel (withFilesToUpload this kept) currentPath files
    = traverse fuel this currentPath files.
Proof.
  induction fuel as [|fuel IH]; intros currentPath files; [reflexivity|].
  cbn [traverse].
  destruct (readdirSync currentPath) as [items|e]; [|reflexivity].
  apply forEachItem_same. intros item fs _.
  destruct (statSyncIsDirectory (removeSlashes (pathJoin currentPath item)))
    as [[|]|e]; try reflexivity.
  change (shouldUpload (withFilesToUpload this kept)
            (removeSlashes (pathJoin currentPath item)))
    with (shouldUpload this (removeSlashes (pathJoin currentPath item))).
  destruct (shouldUpload this (removeSlashes (pathJoin currentPath item)));
    [apply IH|reflexivity].
Qed.

Lemma getIncludes_withFilesToUpload {host : Host} (this : Uploader)
  (kept : list string) (fuel : nat) (dirs : list string) :
  getIncludes fuel (withFilesToUpload this kept) dirs
  = getIncludes fuel this dirs.
Proof.
  unfold getIncludes. apply forEachItem_same. intros dir files _.
  apply traverse_withFilesToUpload.
Qed.

(** The upload set is never emptied: when the hook runs a second time on
    the same instance (a rebuild in watch mode), what the walk of the
    include directories finds is appended once more, after what the first
    run left. *)
Theorem emit_again_appends_again {host : Host} (fuel : nat) (this : Uploader)
  (assetNames : list string) (this1 : Uploader) (evs : list Event) :
  emit fuel this (webpackCompilation assetNames) = Some (Ok this1, evs) ->
  exists found,
    filesToUpload this1 = (filesToUpload this ++ found)%list /\
    emit fuel this1 (webpackCompilation assetNames)
    = Some (Ok (withFilesToUpload this
                  (filesToUpload this ++ found ++ found)%list),
            [Callback None]).
Proof.
  rewrite emit_webpackCompilation.
  destruct (includes this) as [dirs|] eqn:Hinc.
  - destruct (getIncludes fuel this dirs) as [[found|e]|] eqn:Hwalk;
      try discriminate.
    intros H. inversion H. subst this1 evs. clear H.
    exists found. split; [reflexivity|].
    rewrite emit_webpackCompilation.
    cbn [includes withFilesToUpload filesToUpload]. rewrite Hinc.
    rewrite getIncludes_withFilesToUpload, Hwalk.
    now rewrite <- app_assoc.
  - intros H. inversion H. subst this1 evs. clear H.
    exists []. split; [now rewrite app_nil_r|].
    rewrite emit_webpackCompilation.
    cbn [includes withFilesToUpload filesToUpload]. rewrite Hinc.
    now rewrite !app_nil_r.
Qed.

Lemma emit_again_appends_again_witness :
  let this :=
    constructed (Fixtures.withSourceAndLists (Some "a") (Some ["a"]) None) in
  exists found,
    found = ["x.txt"; "b/y.txt"] /\
    @emit Fixtures.exampleTree 3
      (withFilesToUpload this found) (webpackCompilation ["js/app.js"])
    = Some (Ok (withFilesToUpload this (found ++ found)%list),
            [Callback None]).
Proof.
  destruct (@emit_again_appends_again Fixtures.exampleTree 3
              (constructed
                 (Fixtures.withSourceAndLists (Some "a") (Some ["a"]) None))
              ["js/app.js"] _ _ eq_refl) as (found & Hfound & Hemit).
  exists found. cbn in Hfound. subst found. split; [reflexivity|exact Hemit].
Defined.

Section PipelineProperties.

Context {Client : Type} {client : RemoteClient Client} {host : Host}.

(** Without include directories the plugin uploads nothing: whatever
    assets the build emits, the hooks of a fresh instance make no request
    and report success. *)
Theorem build_without_includes_uploads_nothing (options : Options.t)
  (assetNames : list string) (fuel : nat) (outputPath : string)
  (s3 : option Client) :
  Options.includes options = None ->
  exists this',
    emit fuel (constructed options) (webpackCompilation assetNames)
    = Some (Ok this', [Callback None]) /\
    filesToUpload this' = [] /\
    sends (events (afterEmit this' outputPath s3)) = [] /\
    callbacks (events (afterEmit this' outputPath s3)) = [None] /\
    outcome (afterEmit this' outputPath s3) = Ok tt.
Proof.
  intros Hinc.
  assert (Hnone : includes (constructed options) = None).
  { unfold constructed, defaultRegion.
    destruct (negb (truthy (Options.region options))); exact Hinc. }
  exists (withFilesToUpload (constructed options) []).
  split; [rewrite emit_webpackCompilation, Hnone; reflexivity|].
  split; [reflexivity|].
  rewrite afterEmit_run. cbv zeta.
  cbn [filesToUpload withFilesToUpload uploadLoop ret outcome events app].
  rewrite sends_app, callbacks_app, sends_logged, callbacks_logged.
  cbn [sends callbacks app].
  rewrite sends_app, callbacks_app, sends_logged, callbacks_logged.
  repeat split.
Qed.

End PipelineProperties.

Lemma build_without_includes_uploads_nothing_witness :
  exists this',
    @emit Fixtures.distHost 0 (constructed Fixtures.removeWithCredentials)
      (webpackCompilation ["a.js"; "b.js"])
    = Some (Ok this', [Callback None]) /\
    sends (events (@afterEmit nat Fixtures.allPutsSucceed Fixtures.distHost
                     this' "dist" (Some 0))) = [].
Proof.
  destruct (@build_without_includes_uploads_nothing nat
              Fixtures.allPutsSucceed Fixtures.distHost
              Fixtures.removeWithCredentials ["a.js"; "b.js"] 0 "dist"
              (Some 0) eq_refl) as (this' & Hemit & _ & Hsends & _).
  exists this'. split; assumption.
Defined.

(** ** The upload phase *)

Lemma rejection_none_iff (this : Uploader) (filename : string)
  (response : PutObject.Response) :
  rejection this filename response = None
  <-> carriesStatus200 response = true.
Proof.
  destruct response as [[[[[[status|]]|]]|]|err]; cbn;
    try destruct (Z.eqb status 200); split; congruence.
Qed.

Lemma rejection_truthy (this : Uploader) (filename : string)
  (response : PutObject.Response) (reason : JsValue) (report : list Event) :
  rejection this filename response = Some (reason, report) ->
  truthyValue reason = true /\
  sends report = [] /\ callbacks report = [] /\ barUpdates report = [] /\
  consoleLogs report = [].
Proof.
  destruct response as [[[[[[status|]]|]]|]|err]; cbn;
    try destruct (Z.eqb status 200); intros H; inversion H;
    repeat split.
Qed.

Section UploadPhase.

Context {Client : Type} {client : RemoteClient Client} {host : Host}.

Variable this : Uploader.
Variable outputPath : string.

(** [upload] on a client, by the response. *)
Lemma upload_run (filename content : string) (c : Client) :
  let params := putParams this filename content in
  upload this filename content (Some c) =
  match rejection this filename (snd (send c params)) with
  | None =>
      {| outcome := Ok Resolved; s3After := Some (fst (send c params));
         events := [Send params (snd (send c params))] |}
  | Some (reason, report) =>
      {| outcome := Ok (Rejected reason);
         s3After := Some (fst (send c params));
         events := Send params (snd (send c params)) :: report |}
  end.
Proof.
  cbv zeta. unfold upload, tryCatch, sendAndCheck, bind, getS3.
  cbn [outcome s3After events].
  destruct (send c (putParams this filename content)) as [c' response].
  cbn [fst snd].
  destruct response as [[[[[[status|]]|]]|]|err]; cbn;
    try destruct (Z.eqb status 200); reflexivity.
Qed.

(** Reasoning by the course of the loop: it ends at once on an empty
    list; otherwise the file cannot be read, or there is no client, or
    the upload is rejected, or it resolves and the loop goes on with the
    rest. *)
Lemma uploadLoop_course
  (P : list string -> nat -> option Client -> Run Client LoopExit -> Prop) :
  (forall c s3,
      P [] c s3 {| outcome := Ok LoopDone; s3After := s3; events := [] |}) ->
  (forall asset rest c s3 e,
      readFileSync (localPathOf outputPath asset) = Throw e ->
      P (asset :: rest) c s3
        {| outcome := Throw e; s3After := s3; events := [] |}) ->
  (forall asset rest c content,
      readFileSync (localPathOf outputPath asset) = Ok content ->
      P (asset :: rest) c None
        {| outcome := Ok LoopReturned; s3After := None;
           events :=
             [ConsoleError
                [VString (thrownErrorMessage this (keyOf this asset)
                            (typeError "send"))];
              Callback (Some (VError (typeError "send")))] |}) ->
  (forall asset rest c content cl reason report,
      readFileSync (localPathOf outputPath asset) = Ok content ->
      let params := putParams this (keyOf this asset) content in
      rejection this (keyOf this asset) (snd (send cl params))
      = Some (reason, report) ->
      P (asset :: rest) c (Some cl)
        {| outcome := Ok LoopReturned;
           s3After := Some (fst (send cl params));
           events :=
             Send params (snd (send cl params))
             :: report ++ [Callback (Some reason)] |}) ->
  (forall asset rest c content cl,
      readFileSync (localPathOf outputPath asset) = Ok content ->
      let params := putParams this (keyOf this asset) content in
      carriesStatus200 (snd (send cl params)) = true ->
      let r := uploadLoop this outputPath rest (S c) None
                 (Some (fst (send cl params))) in
      P rest (S c) (Some (fst (send cl params))) r ->
      P (asset :: rest) c (Some cl)
        {| outcome := outcome r; s3After := s3After r;
           events :=
             Send params (snd (send cl params))
             :: BarUpdate c (deriveFilename asset) :: events r |}) ->
  forall assets c s3,
    P assets c s3 (uploadLoop this outputPath assets c None s3).
Proof.
  intros Hnil Hread Hnone Hrejected Hresolved.
  induction assets as [|asset rest IH]; intros c s3; [apply Hnil|].
  rewrite uploadLoop_cons. fold (localPathOf outputPath asset).
  destruct (readFileSync (localPathOf outputPath asset)) as [content|e] eqn:Hr;
    [|now apply Hread].
  cbv zeta. destruct s3 as [cl|].
  - rewrite upload_run. cbv zeta.
    destruct (rejection this (keyOf this asset)
                (snd (send cl (putParams this (keyOf this asset) content))))
      as [[reason report]|] eqn:Hrej.
    + destruct (rejection_truthy _ _ _ Hrej) as (Ht & _).
      cbn [outcome s3After events errorSet]. rewrite Ht.
      cbn [app]. now apply (Hrejected asset rest c content cl reason report).
    + cbn [outcome s3After events errorSet app].
      apply (Hresolved asset rest c content cl Hr).
      * now apply rejection_none_iff in Hrej.
      * apply IH.
  - rewrite upload_without_client.
    cbn [outcome s3After events errorSet truthyValue app].
    now apply (Hnone asset rest c content).
Qed.

End UploadPhase.

Lemma barUpdates_app (t1 t2 : list Event) :
  barUpdates (t1 ++ t2) = (barUpdates t1 ++ barUpdates t2)%list.
Proof.
  induction t1 as [|e t1 IH]; [reflexivity|].
  destruct e; simpl; rewrite IH; reflexivity.
Qed.

Lemma consoleLogs_app (t1 t2 : list Event) :
  consoleLogs (t1 ++ t2) = (consoleLogs t1 ++ consoleLogs t2)%list.
Proof.
  induction t1 as [|e t1 IH]; [reflexivity|].
  destruct e; simpl; rewrite IH; reflexivity.
Qed.

Section UploadPhaseProperties.

Context {Client : Type} {client : RemoteClient Client} {host : Host}.

Variable this : Uploader.
Variable outputPath : string.

(** The three ways the loop ends, with what the trace holds in each. *)
Lemma uploadLoop_outcomes (assets : list string) (c : nat)
  (s3 : option Client) :
  let r := uploadLoop this outputPath assets c None s3 in
  match outcome r with
  | Ok LoopDone =>
      callbacks (events r) = [] /\
      putKeys (events r) = map (keyOf this) assets /\
      putResults (events r) = repeat true (List.length assets) /\
      barUpdates (events r)
      = combine (seq c (List.length assets)) (map deriveFilename assets) /\
      consoleLogs (events r) = []
  | Ok LoopReturned =>
      exists e, callbacks (events r) = [Some e] /\ truthyValue e = true
  | Throw e =>
      callbacks (events r) = [] /\
      exists asset,
        In asset assets /\
        readFileSync (localPathOf outputPath asset) = Throw e
  end.
Proof.
  cbv zeta. revert assets c s3.
  apply (@uploadLoop_course Client client host this outputPath
           (fun assets c s3 r =>
              match outcome r with
              | Ok LoopDone =>
                  callbacks (events r) = [] /\
                  putKeys (events r) = map (keyOf this) assets /\
                  putResults (events r) = repeat true (List.length assets) /\
                  barUpdates (events r)
                  = combine (seq c (List.length assets))
                      (map deriveFilename assets) /\
                  consoleLogs (events r) = []
              | Ok LoopReturned =>
                  exists e,
                    callbacks (events r) = [Some e] /\ truthyValue e = true
              | Throw e =>
                  callbacks (events r) = [] /\
                  exists asset,
                    In asset assets /\
                    readFileSync (localPathOf outputPath asset) = Throw e
              end)).
  - intros c s3. cbn. repeat split.
  - intros asset rest c s3 e Hr. cbn. split; [reflexivity|].
    exists asset. split; [now left|exact Hr].
  - intros asset rest c content _. cbn. eexists. split; reflexivity.
  - intros asset rest c content cl reason report _ params Hrej.
    destruct (rejection_truthy _ _ _ Hrej) as (Ht & _ & Hcb & _).
    cbn [outcome events callbacks]. exists reason.
    rewrite callbacks_app, Hcb. split; [reflexivity|exact Ht].
  - intros asset rest c content cl _ params H200 r IH.
    cbn [outcome events]. destruct (outcome r) as [[|]|e].
    + destruct IH as (Hcb & Hkeys & Hres & Hbar & Hlog).
      unfold putKeys, putResults in *.
      cbn [callbacks sends barUpdates consoleLogs map fst snd List.length
             repeat seq combine].
      rewrite Hcb, Hkeys, Hres, Hbar, Hlog, H200. repeat split.
    + exact IH.
    + destruct IH as (Hcb & asset' & Hin & Hr).
      split; [exact Hcb|]. exists asset'. split; [now right|exact Hr].
Qed.

Lemma consoleLogs_logged (msg : string) :
  consoleLogs (logged this msg) = if quiet this then [] else [msg].
Proof. unfold logged. now destruct (quiet this). Qed.

Lemma barUpdates_logged (msg : string) : barUpdates (logged this msg) = [].
Proof. unfold logged. now destruct (quiet this). Qed.

(** The hook calls its callback at most once: exactly once when it
    returns, and not at all when it throws, which happens only when a
    file of the upload set cannot be read. *)
Theorem afterEmit_calls_back_once (s3 : option Client) :
  let run := afterEmit this outputPath s3 in
  match outcome run with
  | Ok _ => exists v, callbacks (events run) = [v]
  | Throw e =>
      callbacks (events run) = [] /\
      exists asset,
        In asset (filesToUpload this) /\
        readFileSync (localPathOf outputPath asset) = Throw e
  end.
Proof.
  cbv zeta. rewrite afterEmit_run. cbv zeta. cbn [outcome events].
  pose proof (uploadLoop_outcomes (filesToUpload this) 1 s3) as H.
  cbv zeta in H.
  rewrite callbacks_app, callbacks_logged. cbn [app callbacks].
  rewrite callbacks_app.
  destruct (outcome (uploadLoop this outputPath (filesToUpload this) 1 None s3))
    as [[|]|e].
  - destruct H as (Hcb & _). rewrite Hcb. cbn [callbacks app].
    rewrite callbacks_app, callbacks_logged. now exists None.
  - destruct H as (v & Hcb & _). rewrite Hcb. now exists (Some v).
  - destruct H as (Hcb & Hasset). rewrite Hcb. split; [reflexivity|exact Hasset].
Qed.

(** When the hook reports success, every file of the upload set has been
    put, in order and with status 200, the bar has gone from 1 to their
    number, and unless quiet the two messages have been logged, once
    each. *)
Theorem afterEmit_success_means_all_uploaded (s3 : option Client) :
  let run := afterEmit this outputPath s3 in
  let files := filesToUpload this in
  callbacks (events run) = [None] ->
  outcome run = Ok tt /\
  putKeys (events run) = map (keyOf this) files /\
  putResults (events run) = repeat true (List.length files) /\
  barUpdates (events run)
  = combine (seq 1 (List.length files)) (map deriveFilename files) /\
  consoleLogs (events run)
  = (if quiet this then [] else [uploadingMessage this; "Finished!"]) /\
  In BarStop (events run).
Proof.
  cbv zeta. rewrite afterEmit_run. cbv zeta. cbn [outcome events].
  pose proof (uploadLoop_outcomes (filesToUpload this) 1 s3) as H.
  cbv zeta in H.
  unfold putKeys, putResults in *.
  rewrite callbacks_app, sends_app, barUpdates_app, consoleLogs_app,
    callbacks_logged, sends_logged, barUpdates_logged, consoleLogs_logged.
  cbn [app callbacks sends barUpdates consoleLogs].
  rewrite callbacks_app, sends_app, barUpdates_app, consoleLogs_app.
  destruct (outcome (uploadLoop this outputPath (filesToUpload this) 1 None s3))
    as [[|]|e].
  - destruct H as (Hcb & Hkeys & Hres & Hbar & Hlog). intros _.
    cbn [callbacks sends barUpdates consoleLogs].
    rewrite sends_app, barUpdates_app, consoleLogs_app,
      sends_logged, barUpdates_logged, consoleLogs_logged.
    cbn [app sends barUpdates consoleLogs]. rewrite !app_nil_r.
    rewrite Hkeys, Hres, Hbar, Hlog.
    repeat split.
    + now destruct (quiet this).
    + apply in_or_app. right. right. apply in_or_app. right. now left.
  - destruct H as (v & Hcb & _). rewrite Hcb. discriminate.
  - destruct H as (Hcb & _). rewrite Hcb. discriminate.
Qed.

(** The hook makes no request besides those of its loop. *)
Lemma afterEmit_sends (s3 : option Client) :
  sends (events (afterEmit this outputPath s3))
  = sends (events (uploadLoop this outputPath (filesToUpload this) 1 None s3)).
Proof.
  rewrite afterEmit_run. cbv zeta. cbn [events].
  rewrite sends_app, sends_logged. cbn [app sends]. rewrite sends_app.
  destruct (outcome (uploadLoop this outputPath (filesToUpload this) 1 None s3))
    as [[|]|e]; cbn [sends]; rewrite ?sends_app, ?sends_logged;
    cbn [sends app]; now rewrite app_nil_r.
Qed.

Lemma progress_of_loop (assets : list string) (c : nat) (s3 : option Client) :
  let r := uploadLoop this outputPath assets c None s3 in
  let k := List.length (filter (fun ok => ok) (putResults (events r))) in
  barUpdates (events r)
  = combine (seq c k) (map deriveFilename (firstn k assets)).
Proof.
  cbv zeta. revert assets c s3.
  apply (@uploadLoop_course Client client host this outputPath
           (fun assets c s3 r =>
              barUpdates (events r)
              = combine
                  (seq c (List.length
                            (filter (fun ok => ok) (putResults (events r)))))
                  (map deriveFilename
                     (firstn (List.length
                                (filter (fun ok => ok)
                                   (putResults (events r))))
                        assets)))).
  - reflexivity.
  - reflexivity.
  - reflexivity.
  - intros asset rest c content cl reason report _ params Hrej.
    destruct (rejection_truthy _ _ _ Hrej) as (_ & Hs & _ & Hbar & _).
    subst params.
    assert (H200 : carriesStatus200
                     (snd (send cl (putParams this (keyOf this asset) content)))
                   = false).
    { apply not_true_is_false. intros E.
      apply rejection_none_iff with (this := this)
                                    (filename := keyOf this asset) in E.
      rewrite E in Hrej. discriminate Hrej. }
    unfold putResults. cbn [events sends barUpdates].
    rewrite sends_app, barUpdates_app, Hs, Hbar.
    cbn [app sends barUpdates map snd]. rewrite H200.
    reflexivity.
  - intros asset rest c content cl _ params H200 r IH.
    unfold putResults in *. cbn [events sends barUpdates map snd].
    rewrite H200. cbn [filter List.length seq firstn map combine].
    now rewrite IH.
Qed.

(** The bar is advanced once for each upload that succeeded, and for
    nothing else: by 1, 2, ... in turn, each time with the name of the
    file just put. *)
Theorem afterEmit_progress (s3 : option Client) :
  let run := afterEmit this outputPath s3 in
  let k := List.length (filter (fun ok => ok) (putResults (events run))) in
  barUpdates (events run)
  = combine (seq 1 k) (map deriveFilename (firstn k (filesToUpload this))).
Proof.
  cbv zeta. rewrite afterEmit_run. cbv zeta. cbn [events].
  pose proof (progress_of_loop (filesToUpload this) 1 s3) as H.
  cbv zeta in H. unfold putResults in *.
  rewrite sends_app, barUpdates_app, sends_logged, barUpdates_logged.
  cbn [app sends barUpdates]. rewrite sends_app, barUpdates_app.
  assert (Htail :
            forall o : Outcome LoopExit,
              sends (match o with
                     | Ok LoopDone =>
                         BarStop :: logged this "Finished!" ++ [Callback None]
                     | _ => []
                     end) = [] /\
              barUpdates (match o with
                          | Ok LoopDone =>
                              BarStop
                              :: logged this "Finished!" ++ [Callback None]
                          | _ => []
                          end) = []).
  { intros [[|]|e]; cbn [sends barUpdates];
      rewrite ?sends_app, ?barUpdates_app, ?sends_logged, ?barUpdates_logged;
      split; reflexivity. }
  destruct (Htail (outcome (uploadLoop this outputPath (filesToUpload this)
                              1 None s3))) as [-> ->].
  rewrite !app_nil_r. exact H.
Qed.

(** With a client that answers every PUT with status 200, and an upload
    set of which every file can be read, the hook puts them all and
    reports success. *)
Theorem afterEmit_succeeds_when_all_answer_200 (cl : Client) :
  (forall c params, carriesStatus200 (snd (send c params)) = true) ->
  (forall asset, In asset (filesToUpload this) ->
                 exists content,
                   readFileSync (localPathOf outputPath asset) = Ok content) ->
  let run := afterEmit this outputPath (Some cl) in
  outcome run = Ok tt /\
  callbacks (events run) = [None] /\
  putKeys (events run) = map (keyOf this) (filesToUpload this).
Proof.
  intros Hall Hread.
  assert (Hdone : forall assets c s3,
             s3 <> None ->
             (forall asset, In asset assets ->
                exists content,
                  readFileSync (localPathOf outputPath asset) = Ok content) ->
             outcome (uploadLoop this outputPath assets c None s3)
             = Ok LoopDone).
  { apply (@uploadLoop_course Client client host this outputPath
             (fun assets c s3 r =>
                s3 <> None ->
                (forall asset, In asset assets ->
                   exists content,
                     readFileSync (localPathOf outputPath asset) = Ok content)
                -> outcome r = Ok LoopDone)).
    - reflexivity.
    - intros asset rest c s3 e Hr _ H.
      destruct (H asset (or_introl eq_refl)) as (content & Hc). congruence.
    - intros asset rest c content _ H. now contradiction H.
    - intros asset rest c content c0 reason report _ params Hrej.
      subst params.
      pose proof (Hall c0 (putParams this (keyOf this asset) content)) as H200.
      apply rejection_none_iff with (this := this)
                                    (filename := keyOf this asset) in H200.
      rewrite H200 in Hrej. discriminate Hrej.
    - intros asset rest c content c0 _ params _ r IH _ H. cbn [outcome].
      apply IH; [discriminate|]. intros a Ha. apply H. now right. }
  cbv zeta.
  pose proof (uploadLoop_outcomes (filesToUpload this) 1 (Some cl)) as Hout.
  cbv zeta in Hout.
  rewrite (Hdone (filesToUpload this) 1 (Some cl)) in Hout
    by (try discriminate; exact Hread).
  destruct Hout as (Hcbs & Hkeys & _).
  unfold putKeys in *. rewrite afterEmit_sends, Hkeys.
  rewrite afterEmit_run. cbv zeta. cbn [outcome events].
  rewrite (Hdone (filesToUpload this) 1 (Some cl))
    by (try discriminate; exact Hread).
  rewrite callbacks_app, callbacks_logged.
  cbn [app callbacks]. rewrite callbacks_app, Hcbs.
  cbn [callbacks app]. rewrite callbacks_app, callbacks_logged.
  repeat split.
Qed.

(** Without a client the hook fails on the first file: the [TypeError] of
    the call on [undefined] is reported and passed to the callback, no
    request is made, and the bar is left running. *)
Theorem afterEmit_without_client_fails_at_first (asset : string)
  (rest : list string) (content : string) :
  filesToUpload this = asset :: rest ->
  readFileSync (localPathOf outputPath asset) = Ok content ->
  afterEmit this outputPath None =
  {| outcome := Ok tt; s3After := None;
     events :=
       logged this (uploadingMessage this)
       ++ [BarStart (S (List.length rest)) 0 "Starting...";
           ConsoleError
             [VString (thrownErrorMessage this (keyOf this asset)
                         (typeError "send"))];
           Callback (Some (VError (typeError "send")))] |}%list.
Proof.
  intros Hfiles Hread. rewrite afterEmit_run. cbv zeta. rewrite Hfiles.
  rewrite uploadLoop_cons. fold (localPathOf outputPath asset).
  rewrite Hread. cbv zeta. rewrite upload_without_client.
  cbn [outcome s3After events errorSet truthyValue app List.length].
  reflexivity.
Qed.

(** Every request of the upload phase is for a file of the upload set:
    its body is what was read from the file of that name under the output
    directory, its key the remote key of the name, and bucket, ACL and
    cache control are those of the instance. *)
Theorem afterEmit_requests (s3 : option Client) (params : PutObject.Params)
  (response : PutObject.Response) :
  In (params, response) (sends (events (afterEmit this outputPath s3))) ->
  exists asset content,
    In asset (filesToUpload this) /\
    readFileSync (localPathOf outputPath asset) = Ok content /\
    params = putParams this (keyOf this asset) content /\
    PutObject.Bucket params = bucket this /\
    PutObject.Body params = content.
Proof.
  rewrite afterEmit_run. cbv zeta. cbn [events].
  rewrite sends_app, sends_logged. cbn [app sends]. rewrite sends_app.
  assert (Htail :
            forall o : Outcome LoopExit,
              sends (match o with
                     | Ok LoopDone =>
                         BarStop :: logged this "Finished!" ++ [Callback None]
                     | _ => []
                     end) = []).
  { intros [[|]|e]; cbn [sends]; rewrite ?sends_app, ?sends_logged;
      reflexivity. }
  rewrite Htail, app_nil_r.
  generalize (filesToUpload this) 1 s3.
  apply (@uploadLoop_course Client client host this outputPath
           (fun assets c s3 r =>
              In (params, response) (sends (events r)) ->
              exists asset content,
                In asset assets /\
                readFileSync (localPathOf outputPath asset) = Ok content /\
                params = putParams this (keyOf this asset) content /\
                PutObject.Bucket params = bucket this /\
                PutObject.Body params = content)).
  - intros c s0 [].
  - intros asset rest c s0 e _ [].
  - intros asset rest c content _ [].
  - intros asset rest c content cl reason report Hr params0 Hrej.
    destruct (rejection_truthy _ _ _ Hrej) as (_ & Hs & _).
    cbn [events sends]. rewrite sends_app, Hs. cbn [app sends].
    intros [H|[]]. inversion H. subst params response.
    exists asset, content. repeat split; [now left|exact Hr].
  - intros asset rest c content cl Hr params0 _ r IH.
    cbn [events sends]. intros [H|H].
    + inversion H. subst params response.
      exists asset, content. repeat split; [now left|exact Hr].
    + destruct (IH H) as (a & ct & Hin & Hrest).
      exists a, ct. split; [now right|exact Hrest].
Qed.

End UploadPhaseProperties.

Lemma afterEmit_success_means_all_uploaded_witness :
  let this := Fixtures.publicUploader ["a.js"; "/b.js?v=2"] in
  let run :=
    @afterEmit nat Fixtures.allPutsSucceed Fixtures.distHost this "dist"
      (Some 0) in
  callbacks (events run) = [None] /\
  putKeys (events run) = ["cdn/a.js"; "cdn/b.js"] /\
  barUpdates (events run) = [(1, "a.js"); (2, "b.js")].
Proof.
  split; [reflexivity|].
  pose proof (@afterEmit_success_means_all_uploaded nat
                Fixtures.allPutsSucceed Fixtures.distHost
                (Fixtures.publicUploader ["a.js"; "/b.js?v=2"]) "dist"
                (Some 0) eq_refl) as (_ & Hkeys & _ & Hbar & _).
  split; [exact Hkeys|exact Hbar].
Defined.

Lemma afterEmit_succeeds_when_all_answer_200_witness :
  let this := Fixtures.publicUploader ["a.js"; "/b.js?v=2"] in
  let run :=
    @afterEmit nat Fixtures.allPutsSucceed Fixtures.distHost this "dist"
      (Some 0) in
  outcome run = Ok tt /\
  callbacks (events run) = [None] /\
  putKeys (events run) = ["cdn/a.js"; "cdn/b.js"].
Proof.
  apply (@afterEmit_succeeds_when_all_answer_200 nat Fixtures.allPutsSucceed
           Fixtures.distHost
           (Fixtures.publicUploader ["a.js"; "/b.js?v=2"]) "dist" 0).
  - intros c params. reflexivity.
  - intros asset [<-|[<-|[]]]; eexists; reflexivity.
Defined.

Lemma afterEmit_without_client_fails_at_first_witness :
  callbacks
    (events (@afterEmit nat Fixtures.allPutsSucceed Fixtures.distHost
               (Fixtures.publicUploader ["a.js"; "b.js"]) "dist" None))
  = [Some (VError (typeError "send"))].
Proof.
  rewrite (@afterEmit_without_client_fails_at_first nat
             Fixtures.allPutsSucceed Fixtures.distHost
             (Fixtures.publicUploader ["a.js"; "b.js"]) "dist"
             "a.js" ["b.js"] "A" eq_refl eq_refl).
  reflexivity.
Defined.

Lemma afterEmit_requests_witness :
  exists asset content,
    In asset ["a.js"; "b.js"] /\
    @readFileSync Fixtures.distHost (localPathOf "dist" asset) = Ok content /\
    content = "B".
Proof.
  destruct (@afterEmit_requests nat Fixtures.secondPutFails Fixtures.distHost
              (Fixtures.publicUploader ["a.js"; "b.js"]) "dist" (Some 0)
              (@putParams Fixtures.distHost
                 (Fixtures.publicUploader []) "cdn/b.js" "B")
              (statusResponse 500))
    as (asset & content & Hin & Hread & _ & _ & Hbody).
  - right. left. reflexivity.
  - exists asset, content. split; [exact Hin|]. split; [exact Hread|].
    now rewrite <- Hbody.
Defined.

(** ** The constructor *)

Lemma clientWanted_defaultRegion (options : Options.t) :
  clientWanted (defaultRegion options)
  = truthy (Options.key options) && truthy (Options.secret options).
Proof.
  unfold clientWanted, defaultRegion.
  destruct (truthy (Options.region options)) eqn:E; cbn.
  - rewrite E. cbn. apply andb_true_r.
  - apply andb_true_r.
Qed.

(** The constructor makes a client exactly when a key and a secret are
    given: since the region has been defaulted by then, its test for a
    region or an endpoint never decides.  Without them the shared
    variable is left as it is, so that an instance without credentials
    works with the client of an earlier one, if there is one. *)
Theorem client_made_iff_key_and_secret {Client : Type}
  {client : RemoteClient Client} (options : Options.t) (s3 : option Client) :
  let run := LaravelMixS3Uploader options s3 in
  ((exists config, In (NewS3 config) (events run))
   <-> truthy (Options.key options) = true
       /\ truthy (Options.secret options) = true) /\
  (Options.remove options = None ->
   s3After run
   = if truthy (Options.key options) && truthy (Options.secret options)
     then Some (newS3 (clientConfig (defaultRegion options)))
     else s3).
Proof.
  cbv zeta. rewrite constructor_run. cbv zeta.
  rewrite defaultRegion_remove.
  unfold clientEvents, clientAfter. rewrite clientWanted_defaultRegion.
  rewrite <- andb_true_iff.
  split.
  - destruct (truthy (Options.key options) && truthy (Options.secret options)).
    + split; [reflexivity|]. intros _.
      exists (clientConfig (defaultRegion options)).
      destruct (Options.remove options); cbn [events]; now left.
    + split; [|discriminate]. intros (config & Hin).
      destruct (Options.remove options) as [paths|]; cbn [events app] in Hin;
        [|destruct Hin].
      rewrite removePaths_run in Hin.
      destruct s3 as [c|]; cbv zeta in Hin; cbn [events] in Hin.
      * destruct Hin as [Hin|Hin]; [discriminate Hin|].
        apply deleteReport_only_errors in Hin. destruct Hin as (err & Hin).
        discriminate Hin.
      * destruct Hin as [Hin|[]]. discriminate Hin.
  - intros Hremove. rewrite Hremove. reflexivity.
Qed.

Lemma client_made_iff_key_and_secret_witness :
  Options.remove Fixtures.bareOptions = None /\
  s3After (@LaravelMixS3Uploader nat Fixtures.allPutsSucceed
             Fixtures.bareOptions (Some 7)) = Some 7.
Proof.
  split; [reflexivity|].
  exact (proj2 (@client_made_iff_key_and_secret nat Fixtures.allPutsSucceed
                  Fixtures.bareOptions (Some 7)) eq_refl).
Defined.

(** ** From the walker to the remote key *)

Lemma deriveFilename_plain (s : string) :
  plainName s = true -> deriveFilename s = s.
Proof.
  unfold plainName, deriveFilename. rewrite !andb_true_iff, !negb_true_iff.
  intros [[Hq Hs] He]. rewrite (beforeQuestionMark_plain _ Hq).
  now apply removeSlashes_fixed.
Qed.

Lemma traverse_S {host : Host} (fuel : nat) (this : Uploader)
  (currentPath : string) (files : list string) :
  traverse (S fuel) this currentPath files =
  match readdirSync currentPath with
  | Throw e => Some (Throw e)
  | Ok items => forEachItem (traverseItem fuel this currentPath) items files
  end.
Proof. reflexivity. Qed.

Lemma traverseItem_extendedBy {host : Host} (fuel : nat) (this : Uploader)
  (currentPath item : string) (files : list string) :
  traverseItem fuel this currentPath item files
  = extendedBy files (traverseItem fuel this currentPath item []).
Proof.
  unfold traverseItem.
  destruct (statSyncIsDirectory (removeSlashes (pathJoin currentPath item)))
    as [[|]|e]; try reflexivity;
    destruct (shouldUpload this (removeSlashes (pathJoin currentPath item)));
    cbn [extendedBy]; rewrite ?app_nil_r; try reflexivity.
  - apply traverse_extendedBy.
  - apply includeFile_extendedBy.
Qed.

(** Of a walk over [items] that has come to an end, every item was dealt
    with, and what there was after it is in the result. *)
Lemma forEachItem_visits {A : Type}
  (f : A -> list string -> option (Outcome (list string)))
  (items : list A) :
  (forall item files, f item files = extendedBy files (f item [])) ->
  forall files out item,
    forEachItem f items files = Some (Ok out) ->
    In item items ->
    exists before after,
      f item before = Some (Ok after) /\ incl after out.
Proof.
  intros Hacc. induction items as [|first rest IH]; intros files out item;
    cbn [forEachItem]; [intros _ []|].
  destruct (f first files) as [[files'|e]|] eqn:E; try discriminate.
  intros Hrest [<-|Hin].
  - exists files, files'. split; [exact E|].
    rewrite forEachItem_extendedBy in Hrest by (intros; apply Hacc).
    destruct (forEachItem f rest []) as [[more|e]|]; try discriminate.
    cbn in Hrest. inversion Hrest. apply incl_appl, incl_refl.
  - now apply (IH files').
Qed.

(** A walk that comes to an end has walked every directory it goes
    into, and what it found there is in its result. *)
Lemma entered_walked {host : Host} (this : Uploader) (fuel : nat)
  (dirs found : list string) (dir : string) :
  getIncludes fuel this dirs = Some (Ok found) ->
  entered this dirs dir ->
  exists fuel' files out,
    traverse fuel' this dir files = Some (Ok out) /\ incl out found.
Proof.
  intros Hwalk Hentered.
  induction Hentered as [dir Hin|dir items item Hentered IH Hlist Hin Hstat Hf].
  - unfold getIncludes in Hwalk.
    destruct (@forEachItem_visits _
                (fun dir files => traverse fuel this dir files) dirs
                (fun d fs => traverse_extendedBy this fuel d fs)
                [] found dir Hwalk Hin) as (before & after & Hrun & Hincl).
    now exists fuel, before, after.
  - destruct IH as (fuel' & files & out & Hrun & Hincl).
    destruct fuel' as [|fuel']; [discriminate Hrun|].
    rewrite traverse_S, Hlist in Hrun.
    destruct (@forEachItem_visits _ (traverseItem fuel' this dir) items
                (traverseItem_extendedBy fuel' this dir)
                files out item Hrun Hin)
      as (before & after & Hitem & Hafter).
    unfold traverseItem in Hitem. rewrite Hstat, Hf in Hitem.
    exists fuel', before, after. split; [exact Hitem|].
    intros x Hx. apply Hincl, Hafter, Hx.
Qed.

(** A file found under the source directory is stored under the path it
    was found at.  Take a walk that comes to an end, a directory it goes
    into, and a file listed there whose path is the source, a separator
    and a rest, and which passes the filter as it is found and again
    once the source is cut off.  Then the rest is in the result of the
    walk, and, with no prefix configured and a rest that the loop leaves
    as it is, the remote key the loop makes for it is the path the file
    was found at. *)
Theorem key_of_included_file_is_its_path {host : Host} (this : Uploader)
  (fuel : nat) (dirs found : list string) (dir : string)
  (items : list string) (item src rest : string) :
  getIncludes fuel this dirs = Some (Ok found) ->
  entered this dirs dir ->
  readdirSync dir = Ok items ->
  In item items ->
  removeSlashes (pathJoin dir item) = src ++ "/" ++ rest ->
  statSyncIsDirectory (src ++ "/" ++ rest) = Ok false ->
  shouldUpload this (src ++ "/" ++ rest) = true ->
  source this = Some src -> src <> EmptyString ->
  truthy (prefix this) = false ->
  shouldUpload this rest = true ->
  plainName (backslashesToSlashes rest) = true ->
  In (backslashesToSlashes rest) found /\
  keyOf this (backslashesToSlashes rest)
  = src ++ "/" ++ backslashesToSlashes rest.
Proof.
  intros Hwalk Hentered Hlist Hin Hpath Hstat Hfound Hsrc Hne Hprefix Hfilter
    Hplain.
  split.
  - destruct (@entered_walked host this fuel dirs found dir Hwalk Hentered)
      as (fuel' & files & out & Hrun & Hincl).
    destruct fuel' as [|fuel']; [discriminate Hrun|].
    rewrite traverse_S, Hlist in Hrun.
    destruct (@forEachItem_visits _ (traverseItem fuel' this dir) items
                (traverseItem_extendedBy fuel' this dir)
                files out item Hrun Hin)
      as (before & after & Hitem & Hafter).
    unfold traverseItem in Hitem.
    rewrite Hpath, Hstat, Hfound in Hitem.
    rewrite (includeFile_below_source this _ before Hsrc), Hfilter in Hitem.
    inversion Hitem. subst after.
    apply Hincl, Hafter, in_or_app. right. now left.
  - unfold keyOf. rewrite (deriveFilename_plain _ Hplain).
    unfold remotePath. rewrite Hprefix, Hsrc. cbn [truthy toStr].
    destruct src; [congruence|reflexivity].
Qed.

Lemma key_of_included_file_is_its_path_witness :
  let this :=
    constructed
      (Fixtures.withSourceAndLists (Some "public") (Some ["public"]) None) in
  @getIncludes Fixtures.publicTree 3 this ["public"]
  = Some (Ok ["img/logo.png"]) /\
  In "img/logo.png" ["img/logo.png"] /\
  keyOf this "img/logo.png" = "public/img/logo.png".
Proof.
  split; [reflexivity|].
  apply (@key_of_included_file_is_its_path Fixtures.publicTree
           (constructed
              (Fixtures.withSourceAndLists (Some "public") (Some ["public"])
                 None))
           3 ["public"] ["img/logo.png"] "public/img" ["logo.png"]
           "logo.png" "public" "img/logo.png");
    try reflexivity; try discriminate; try (now left).
  apply (@entered_below Fixtures.publicTree
           (constructed
              (Fixtures.withSourceAndLists (Some "public") (Some ["public"])
                 None))
           ["public"] "public" ["img"] "img");
    try reflexivity; try (now left).
  apply entered_root. now left.
Defined.

(** ** The first variant *)

Lemma push_if_filter {A : Type} (keep : A -> bool) (xs : list A) :
  forall acc,
    fold_left (fun files x => if keep x then (files ++ [x])%list else files)
      xs acc
    = (acc ++ filter keep xs)%list.
Proof.
  induction xs as [|x xs IH]; intros acc; cbn [fold_left filter].
  - now rewrite app_nil_r.
  - rewrite IH. destruct (keep x); [|reflexivity].
    now rewrite <- app_assoc.
Qed.

(** In the first variant the upload set after the [emit] hook is what it
    was before, then the emitted assets that pass the filter, in the
    order of the compilation, then what the walk of the include
    directories finds; nothing is removed from it or compared with what
    it holds already.  The loop of the second variant does the same with
    the keys it goes through. *)
Theorem Legacy_emit_upload_set {host : Host} (fuel : nat)
  (this : Legacy.Instance) (current : Uploader) (assetNames keys : list string) :
  let emitted :=
    (Legacy.assets (Legacy.core this)
     ++ filter (Legacy.shouldUpload (Legacy.core this)) assetNames)%list in
  Legacy.emit fuel this (webpackCompilation assetNames) =
  match Legacy.includes this with
  | Some dirs =>
      match Legacy.getIncludes fuel this dirs with
      | None => None
      | Some (Throw e) => Some (Throw e, [])
      | Some (Ok found) => Some (Ok (emitted ++ found)%list, [Callback None])
      end
  | None => Some (Ok emitted, [Callback None])
  end /\
  collectEmitted current keys (filesToUpload current)
  = (filesToUpload current ++ filter (shouldUpload current) keys)%list.
Proof.
  cbv zeta. split.
  - unfold Legacy.emit, Legacy.collectEmitted.
    cbn [webpackCompilation properties getProperty String.eqb forInKeys].
    change (forInKeys (if String.eqb "assets" "assets"
                       then Some assetNames else None))
      with assetNames.
    now rewrite push_if_filter.
  - apply push_if_filter.
Qed.

(** The walker of the first variant cuts the source off a path that
    starts with it, and no more: below the source directory the
    separator stays in front, where the loop's [removeSlashes] takes it
    away.  Without a source, a path that starts with the text
    [undefined] makes it throw. *)
Theorem Legacy_includeFile_keeps_separator (src rest : string)
  (files : list string) :
  Legacy.includeFile (Some src) (src ++ "/" ++ rest) files
  = Ok (files ++ [("/" ++ backslashesToSlashes rest)%string])%list /\
  Legacy.includeFile None ("undefined" ++ rest) files
  = Throw (typeError "length") /\
  (plainName (backslashesToSlashes rest) = true ->
   deriveFilename ("/" ++ backslashesToSlashes rest)
   = backslashesToSlashes rest).
Proof.
  split; [|split].
  - unfold Legacy.includeFile. cbn [toStr].
    rewrite startsWith_append, slice_append. reflexivity.
  - unfold Legacy.includeFile. cbn [toStr].
    now rewrite startsWith_append.
  - intros Hplain. unfold plainName in Hplain.
    rewrite !andb_true_iff, !negb_true_iff in Hplain.
    destruct Hplain as [[Hq Hs] He].
    unfold deriveFilename. cbn [append beforeQuestionMark].
    change (Ascii.eqb "/" question_mark) with false. cbn iota.
    rewrite (beforeQuestionMark_plain _ Hq).
    unfold removeSlashes. cbn [stripLeadingSlash].
    change (Ascii.eqb "/" slash) with true. cbn iota.
    destruct (stripTrailingSlash_spec (backslashesToSlashes rest))
      as [[_ H]|[H _]]; congruence.
Qed.

Lemma Legacy_includeFile_keeps_separator_witness :
  plainName (backslashesToSlashes "img/logo.png") = true /\
  deriveFilename ("/" ++ backslashesToSlashes "img/logo.png")
  = "img/logo.png".
Proof.
  split; [reflexivity|].
  apply (proj2 (proj2 (Legacy_includeFile_keeps_separator
                         "public" "img/logo.png" []))).
  reflexivity.
Defined.

Example Legacy_getIncludes_example :
  @Legacy.getIncludes Fixtures.exampleTree 3
    {| Legacy.core := {| Legacy.assets := []; Legacy.exclude := None |};
       Legacy.source := Some "a"; Legacy.includes := Some ["a"] |}
    ["a"]
  = Some (Ok ["/x.txt"; "/b/y.txt"]).
Proof. reflexivity. Qed.

(** ** Two more edges *)

(** An empty entry in the exclude list leaves out every path, since every
    string starts with the empty string. *)
Theorem empty_exclude_entry_excludes_all (this : Uploader) (E : list string)
  (p : string) :
  excludes this = Some E -> In EmptyString E ->
  shouldUpload this p = false.
Proof.
  intros HE Hin. unfold shouldUpload, isExcluded. rewrite HE.
  apply negb_false_iff. apply isExcludedBy_spec.
  exists EmptyString. split; [exact Hin|reflexivity].
Qed.

Lemma empty_exclude_entry_excludes_all_witness :
  let this :=
    constructed
      (Fixtures.withSourceAndLists None None (Some ["vendor"; EmptyString])) in
  shouldUpload this "js/app.js" = false.
Proof.
  apply (@empty_exclude_entry_excludes_all
           (constructed
              (Fixtures.withSourceAndLists None None
                 (Some ["vendor"; EmptyString])))
           ["vendor"; EmptyString] "js/app.js" eq_refl).
  right. now left.
Defined.

Lemma removeSlashes_fixed_iff_witness :
  startsWithSlash "js/app.js" = false /\ endsWithSlash "js/app.js" = false /\
  removeSlashes "js/app.js" = "js/app.js".
Proof.
  split; [reflexivity|]. split; [reflexivity|].
  apply (proj2 (removeSlashes_fixed_iff "js/app.js")). split; reflexivity.
Defined.

(** [upload] makes at most one request and does not call the hook
    callback itself.  With no client it makes no request and is rejected
    with the [TypeError] of the call on [undefined].  Whenever it is
    rejected, what it is rejected with is truthy: an error that was
    thrown, or the message for a response without status 200, which is
    not empty; so the loop's test of [error] sees every rejection. *)
Theorem upload_rejection_is_truthy {Client : Type}
  {client : RemoteClient Client} {host : Host} (this : Uploader)
  (filename content : string) (s3 : option Client) :
  let run := upload this filename content s3 in
  List.length (sends (events run)) <= 1 /\
  callbacks (events run) = [] /\
  (s3 = None ->
   outcome run = Ok (Rejected (VError (typeError "send")))
   /\ sends (events run) = []) /\
  (forall reason, outcome run = Ok (Rejected reason) ->
                  truthyValue reason = true).
Proof.
  cbv zeta. destruct s3 as [c|].
  - rewrite upload_run. cbv zeta.
    destruct (rejection this filename
                (snd (send c (putParams this filename content))))
      as [[reason report]|] eqn:Hrej.
    + destruct (rejection_truthy _ _ _ Hrej) as (Ht & Hs & Hcb & _).
      cbn [outcome events sends callbacks]. rewrite Hs, Hcb.
      repeat split; try discriminate; auto.
      intros reason' H. inversion H. now subst reason'.
    + cbn. repeat split; try discriminate; auto.
  - rewrite upload_without_client. cbn. repeat split; auto.
    intros reason H. inversion H. reflexivity.
Qed.

Lemma upload_rejection_is_truthy_witness :
  outcome (@upload nat Fixtures.secondPutFails Fixtures.distHost
             (Fixtures.bareUploader []) "b.js" "B" (Some 1))
  = Ok (Rejected (VString "Error uploading b.js to bucket: Unknown error")) /\
  truthyValue (VString "Error uploading b.js to bucket: Unknown error") = true.
Proof.
  split; [reflexivity|].
  exact (proj2 (proj2 (proj2
           (@upload_rejection_is_truthy nat Fixtures.secondPutFails
              Fixtures.distHost (Fixtures.bareUploader []) "b.js" "B"
              (Some 1))))
           _ eq_refl).
Defined.

(** ** The delete on a client that returns a promise *)

(** When [deleteObjects] returns a promise, as the [S3] of
    [@aws-sdk/client-s3] does, construction with a remove list issues the
    delete and then logs one error: the [TypeError] of calling [promise]
    on what was returned.  This is so whether the delete succeeds or is
    rejected, and what a rejected delete is rejected with is not
    logged. *)
Theorem delete_on_bare_promise_logs_type_error {Client : Type}
  {client : RemoteClient Client} (options : Options.t) (s3 : option Client)
  (paths : list string) (c : Client) (settles : DeleteObjects.Settlement) :
  let params := deleteParams (instanceBeforeRemove (defaultRegion options))
                  paths in
  Options.remove options = Some paths ->
  clientAfter options s3 = Some c ->
  snd (deleteObjects c params) = DeleteObjects.BarePromise settles ->
  events (LaravelMixS3Uploader options s3)
  = (clientEvents options
     ++ [DeleteCall params (DeleteObjects.BarePromise settles);
         deleteErrorLogged (notAFunction "s3.deleteObjects(...).promise")])%list
  /\ outcome (LaravelMixS3Uploader options s3)
     = Ok (constructed options, defaultRegion options).
Proof.
  cbv zeta. intros Hremove Hclient Hresponse.
  rewrite constructor_run. cbv zeta.
  rewrite defaultRegion_remove, Hremove. cbn [events outcome].
  rewrite removePaths_run, Hclient. cbv zeta. cbn [events].
  rewrite Hresponse. split; reflexivity.
Qed.

Lemma delete_on_bare_promise_logs_type_error_witness :
  consoleOutput
    (events (@LaravelMixS3Uploader nat Fixtures.deleteRefused
               Fixtures.removeWithCredentials None))
  = [deleteErrorLogged (notAFunction "s3.deleteObjects(...).promise")].
Proof.
  rewrite (proj1 (@delete_on_bare_promise_logs_type_error nat
                    Fixtures.deleteRefused Fixtures.removeWithCredentials
                    None ["old/a.js"] 0
                    (DeleteObjects.Rejects Fixtures.accessDenied)
                    eq_refl eq_refl eq_refl)).
  reflexivity.
Defined.
